(** * EGODS remote fill station: link protocol of the command and actuator boxes

    Shallow embedding of the Arduino sketches

    - [EGODS_remote_fill_station_inter/EGODS_actuator_box_inter.ino]
    - [EGODS_remote_fill_station_inter/EGODS_actuator_box.ino]
    - [EGODS_remote_fill_station_inter/EGODS_command_box_inter.ino]
    - [EGODS_remote_fill_station_prelim/EGODS_actuator_box.ino]
    - [EGODS_remote_fill_station_prelim/EGODS_command_box.ino]

    Global variables of a sketch become the fields of a record, every
    function of a sketch becomes a function on that record.  What a sketch
    reads from its surroundings (the clock, the pins, the random generator,
    the radio FIFO) is an explicit argument.  Serial output is diagnostic
    only and is left out.  The receive callback is taken to run between two
    iterations of [loop], never inside one. *)

From Stdlib Require Import ZArith QArith Qabs Qround List Bool Lia.
From Stdlib Require Import Strings.Ascii Strings.String Strings.Byte.
From Stdlib Require Import DecimalString.
Import ListNotations.

Local Open Scope Z_scope.

(** ** Machine integers of the target (Arduino Uno R4 Minima, 32-bit [int]
       and [long]) *)

Module CInt.

(** Conversion to [byte] (uint8_t). *)
Definition to_byte (z : Z) : Z := z mod 256.

(** Conversion to [unsigned long]. *)
Definition to_ulong (z : Z) : Z := z mod 2 ^ 32.

(** Conversion to [long] and to [int], both 32-bit two's complement. *)
Definition to_long (z : Z) : Z := (z + 2 ^ 31) mod 2 ^ 32 - 2 ^ 31.
Definition to_int (z : Z) : Z := to_long z.

(** A value that fits a [byte]. *)
Definition is_byte (z : Z) : Prop := 0 <= z < 256.

End CInt.

(** ** The radio: packets are byte sequences, the receive FIFO hands them
       out one byte at a time *)

Module LoRa.

Definition packet := list Byte.byte.

(** Numeric value of a byte on the air. *)
Definition byte_val (b : Byte.byte) : Z := Z.of_N (Byte.to_N b).

(** The byte that [LoRa.write] puts on the air for a [byte] argument. *)
Definition wire_byte (z : Z) : Byte.byte :=
  match Byte.of_N (Z.to_N (CInt.to_byte z)) with
  | Some b => b
  | None => Byte.x00
  end.

(** [LoRa.available()]: bytes left in the FIFO. *)
Definition available (fifo : packet) : Z := Z.of_nat (List.length fifo).

(** [LoRa.read()]: the next byte as an [int], or -1 when the FIFO is
    empty; the second component is the FIFO afterwards. *)
Definition read (fifo : packet) : Z * packet :=
  match fifo with
  | [] => (-1, [])
  | b :: rest => (byte_val b, rest)
  end.

(** [LoRa.write(b)] and [LoRa.print(s)] on the packet under
    construction. *)
Definition write (b : Z) (pkt : packet) : packet := pkt ++ [wire_byte b].
Definition print (s : string) (pkt : packet) : packet :=
  pkt ++ list_byte_of_string s.

(** The cast [(char)LoRa.read()]. *)
Definition char_of_int (z : Z) : ascii := ascii_of_byte (wire_byte z).

(** Head of every [onReceive] handler (the same text in the three
    callback sketches):
<<
    if (packet_size) {
      byte recipient_address = LoRa.read();
      byte sender_address = LoRa.read();
      if ((recipient_address != local_address) ||
          (sender_address != destination_address)) { ...; return; }
>>
    [Some fifo] is the FIFO left for the rest of the handler, [None]
    means that the handler returns without reading a payload. *)
Definition address_filter (local_address destination_address : Z)
    (pkt : packet) : option packet :=
  let packet_size := available pkt in
  if packet_size =? 0 then None
  else
    let '(r, fifo1) := read pkt in
    let recipient_address := CInt.to_byte r in
    let '(s, fifo2) := read fifo1 in
    let sender_address := CInt.to_byte s in
    if negb (recipient_address =? local_address)
       || negb (sender_address =? destination_address)
    then None
    else Some fifo2.

(** A packet of at least two bytes that starts with the two given
    addresses. *)
Definition has_header (local peer : Byte.byte) (pkt : packet) : Prop :=
  (2 <= List.length pkt)%nat
  /\ nth_error pkt 0 = Some local /\ nth_error pkt 1 = Some peer.

End LoRa.

(** ** Arduino core: [String] *)

Module WString.

Local Open Scope string_scope.

(** [s += c] for a [char] *)
Definition append_char (s : string) (c : ascii) : string :=
  s ++ String c EmptyString.

(** Decimal digits of a natural number. *)
Definition digits (n : Z) : string :=
  NilEmpty.string_of_uint (N.to_uint (Z.to_N n)).

(** [String(float)] belongs to the Arduino core, which is not part of
    the repository.  It is modelled after the core's documentation:
    fixed notation with two decimal places (the default of the second
    argument), which the core of the Uno R4 gets from [printf]: the
    value is rounded to the nearest hundredth and a tie goes to the
    even one (0.125 gives 0.12).  A reading is a rational; NaN and the
    infinities have no counterpart here. *)
Definition hundredths (x : Q) : Z :=
  let y := (Qabs x * 100)%Q in
  let f := Qfloor y in
  match (y - inject_Z f ?= 1 # 2)%Q with
  | Gt => f + 1
  | Eq => if Z.even f then f else f + 1
  | Lt => f
  end.

Definition String_of_float (x : Q) : string :=
  let h := hundredths x in
  let frac := h mod 100 in
  (if Qle_bool 0 x then "" else "-")
    ++ digits (h / 100) ++ "."
    ++ (if (frac <? 10)%Z then "0" else "") ++ digits frac.

(** [s += bitRead(code, i)]: the bit as the digit 0 or 1. *)
Definition bit_char (code i : Z) : ascii :=
  if Z.testbit code i then "1"%char else "0"%char.

(** The loop [for (int i=7; i>-1; i--) s += bitRead(code,i);] of the
    [eight_bit_*_format] functions, started from the empty string. *)
Definition eight_bits (code : Z) : string :=
  fold_left (fun s i => append_char s (bit_char code i))
            [7; 6; 5; 4; 3; 2; 1; 0] "".

End WString.

(** ** Arduino core: [random] *)

Module WMath.

(** [random(howbig)]: [random() % howbig], zero for [howbig == 0]; the
    second argument is the value of the inner [random()], which is never
    negative. *)
Definition random (howbig : Z) (raw : N) : Z :=
  if howbig =? 0 then 0 else Z.rem (Z.of_N raw) howbig.

End WMath.

(** ** Pins *)

Module Pins.

Definition pins := Z -> Z.

Definition digitalWrite (pin val : Z) (p : pins) : pins :=
  fun q => if q =? pin then val else p q.

Definition all_low : pins := fun _ => 0.

End Pins.

(** ** Opcode codec: the parts that the sketches share word for word *)

Module Codec.

(** The three lines of every [LED_actuation]
<<
    byte rcv_fill_sw_state  = (rcv_opcode >> 2) & 0b1;
    byte rcv_dump_sw_state  = (rcv_opcode >> 1) & 0b1;
    byte rcv_check_sw_state = rcv_opcode & 0b1;
>>
    as the triple (fill, dump, check). *)
Definition decode (code : Z) : Z * Z * Z :=
  (CInt.to_byte (Z.land (Z.shiftr code 2) 1),
   CInt.to_byte (Z.land (Z.shiftr code 1) 1),
   CInt.to_byte (Z.land code 1)).

(** Body of [opcode_generator] and of [command_message], with the three
    [digitalRead] results as arguments:
<<
    byte fill_sw_state = digitalRead(FILL_SW);
    fill_sw_state = fill_sw_state << 2;
    byte dump_sw_state = digitalRead(DUMP_SW);
    dump_sw_state = dump_sw_state << 1;
    byte check_sw_state = digitalRead(CHECK_SW);
    return (fill_sw_state + dump_sw_state + check_sw_state);
>> *)
Definition encode (fill dump check : Z) : Z :=
  let fill_sw_state := CInt.to_byte fill in
  let fill_sw_state := CInt.to_byte (Z.shiftl fill_sw_state 2) in
  let dump_sw_state := CInt.to_byte dump in
  let dump_sw_state := CInt.to_byte (Z.shiftl dump_sw_state 1) in
  let check_sw_state := CInt.to_byte check in
  CInt.to_byte (fill_sw_state + dump_sw_state + check_sw_state).

(** [encode] on a decoded triple. *)
Definition encode3 (bits : Z * Z * Z) : Z :=
  let '(fill, dump, check) := bits in encode fill dump check.

(** The test of [LED_actuation] in the callback sketches:
    [(code==1) || (code==3) || (code==6) || (code==7)]. *)
Definition forbidden (code : Z) : bool :=
  (code =? 1) || (code =? 3) || (code =? 6) || (code =? 7).

End Codec.

(** ** Actuator box with pressure transducers
       ([EGODS_actuator_box_inter.ino]) *)

Module ActuatorBox.

Definition FILL_COMND : Z := 7.
Definition DUMP_COMND : Z := 8.
Definition CHECK_COMND : Z := 9.
(** [A1], [A2], [A3] of the Uno R4 pin map. *)
Definition FILL_PRES : Z := 15.
Definition DUMP_PRES : Z := 16.
Definition CHECK_PRES : Z := 17.

Definition local_address : Z := 0xBB.
Definition destination_address : Z := 0xCC.

Record state := mk {
  opcode : Z;
  rcv_opcode : Z;
  eight_bit_opcode : string;
  fill_pres : Q;
  dump_pres : Q;
  check_pres : Q;
  set_up_success : Z;
  loop_fail_once : Z;
  last_send_time : Z;
  interval : Z;
  pins : Pins.pins
}.

(** The initialisers of the globals. *)
Definition initial : state :=
  mk 0 0 "" 0 0 0 0 0 0 1000 Pins.all_low.

Definition set_opcode v s :=
  mk v (rcv_opcode s) (eight_bit_opcode s) (fill_pres s) (dump_pres s)
     (check_pres s) (set_up_success s) (loop_fail_once s)
     (last_send_time s) (interval s) (pins s).
Definition set_rcv_opcode v s :=
  mk (opcode s) v (eight_bit_opcode s) (fill_pres s) (dump_pres s)
     (check_pres s) (set_up_success s) (loop_fail_once s)
     (last_send_time s) (interval s) (pins s).
Definition set_eight_bit_opcode v s :=
  mk (opcode s) (rcv_opcode s) v (fill_pres s) (dump_pres s)
     (check_pres s) (set_up_success s) (loop_fail_once s)
     (last_send_time s) (interval s) (pins s).
Definition set_pres f d c s :=
  mk (opcode s) (rcv_opcode s) (eight_bit_opcode s) f d c
     (set_up_success s) (loop_fail_once s)
     (last_send_time s) (interval s) (pins s).
Definition set_set_up_success v s :=
  mk (opcode s) (rcv_opcode s) (eight_bit_opcode s) (fill_pres s)
     (dump_pres s) (check_pres s) v (loop_fail_once s)
     (last_send_time s) (interval s) (pins s).
Definition set_loop_fail_once v s :=
  mk (opcode s) (rcv_opcode s) (eight_bit_opcode s) (fill_pres s)
     (dump_pres s) (check_pres s) (set_up_success s) v
     (last_send_time s) (interval s) (pins s).
Definition set_last_send_time v s :=
  mk (opcode s) (rcv_opcode s) (eight_bit_opcode s) (fill_pres s)
     (dump_pres s) (check_pres s) (set_up_success s) (loop_fail_once s)
     v (interval s) (pins s).
Definition set_interval v s :=
  mk (opcode s) (rcv_opcode s) (eight_bit_opcode s) (fill_pres s)
     (dump_pres s) (check_pres s) (set_up_success s) (loop_fail_once s)
     (last_send_time s) v (pins s).
Definition set_pins v s :=
  mk (opcode s) (rcv_opcode s) (eight_bit_opcode s) (fill_pres s)
     (dump_pres s) (check_pres s) (set_up_success s) (loop_fail_once s)
     (last_send_time s) (interval s) v.

(** What one iteration of [loop] reads from outside: the clock at the
    test, the analog pins, the clock again after the packet has gone
    out, and the raw value behind [random(1000)].  The sketch keeps an
    analog reading in a [float]; here it is kept as the same number,
    which is what the [float] holds for every reading up to 2^24 (the
    converter gives 14 bits at most). *)
Record env := mk_env {
  millis_test : Z;
  analogRead : Z -> Z;
  millis_stamp : Z;
  random_raw : N
}.

(** [setup]; the argument tells whether [LoRa.begin] succeeded. *)
Definition setup (lora_begin : bool) (s : state) : state :=
  if negb lora_begin then s else set_set_up_success 1 s.

(** [sendMessage(data1, data2, data3)]: the packet that goes out. *)
Definition sendMessage (data1 data2 data3 : Q) : LoRa.packet :=
  let p := LoRa.write destination_address [] in
  let p := LoRa.write local_address p in
  let p := LoRa.print (WString.String_of_float data1) p in
  let p := LoRa.print "|" p in
  let p := LoRa.print (WString.String_of_float data2) p in
  let p := LoRa.print "|" p in
  LoRa.print (WString.String_of_float data3) p.

(** [onReceive]; [packet_size] is the length of the packet. *)
Definition onReceive (pkt : LoRa.packet) (s : state) : state :=
  match LoRa.address_filter local_address destination_address pkt with
  | None => s
  | Some fifo => set_opcode (CInt.to_byte (fst (LoRa.read fifo))) s
  end.

(** [LED_actuation(code)]. *)
Definition LED_actuation (code : Z) (s : state) : state :=
  let s := if Codec.forbidden code then s else set_rcv_opcode code s in
  let '(rcv_fill_sw_state, rcv_dump_sw_state, rcv_check_sw_state) :=
    Codec.decode (rcv_opcode s) in
  let p := Pins.digitalWrite FILL_COMND rcv_fill_sw_state (pins s) in
  let p := Pins.digitalWrite DUMP_COMND rcv_dump_sw_state p in
  let p := Pins.digitalWrite CHECK_COMND rcv_check_sw_state p in
  set_pins p s.

(** [eight_bit_code_format(code)]. *)
Definition eight_bit_code_format (code : Z) (s : state) : state :=
  set_eight_bit_opcode (WString.eight_bits code) s.

(** The test of the transmit timer, [millis() - last_send_time > interval],
    evaluated in [unsigned long]. *)
Definition due (now : Z) (s : state) : bool :=
  CInt.to_ulong (CInt.to_ulong now - CInt.to_ulong (last_send_time s))
    >? CInt.to_ulong (interval s).

(** [loop]: the new state and the packet sent, if any. *)
Definition loop (e : env) (s : state) : state * option LoRa.packet :=
  if negb (loop_fail_once s =? 0) then (s, None)
  else if set_up_success s =? 0 then (set_loop_fail_once 1 s, None)
  else if due (millis_test e) s then
    let s := set_pres (inject_Z (analogRead e FILL_PRES))
                      (inject_Z (analogRead e DUMP_PRES))
                      (inject_Z (analogRead e CHECK_PRES)) s in
    let pkt := sendMessage (fill_pres s) (dump_pres s) (check_pres s) in
    let s := set_last_send_time (CInt.to_long (millis_stamp e)) s in
    let s := set_interval
               (CInt.to_int (WMath.random 1000 (random_raw e) + 500)) s in
    let s := LED_actuation (opcode s) s in
    let s := eight_bit_code_format (opcode s) s in
    (s, Some pkt)
  else (s, None).

(** [LED_actuation] read as the latch of the design: the code that
    the call decodes onto the pins, and the state it leaves. *)
Definition apply (code : Z) (s : state) : Z * state :=
  let s' := LED_actuation code s in (rcv_opcode s', s').

(** A sequence of [LED_actuation] calls, first code first. *)
Definition run (codes : list Z) (s : state) : state :=
  fold_left (fun s code => LED_actuation code s) codes s.

(** States of a run: [setup] once, then callbacks and iterations of
    [loop] in any order. *)
Inductive reachable : state -> Prop :=
| reach_setup : forall ok, reachable (setup ok initial)
| reach_receive : forall pkt s,
    reachable s -> reachable (onReceive pkt s)
| reach_loop : forall e s,
    reachable s -> reachable (fst (loop e s)).

End ActuatorBox.

(** ** Actuator box with the ultrasonic sensor
       ([EGODS_remote_fill_station_inter/EGODS_actuator_box.ino]):
       the receive half.  Its transmit timer is the one of [ActuatorBox]. *)

Module UltrasonicBox.

Definition FILL_LED : Z := 8.
Definition DUMP_LED : Z := 5.
Definition CHECK_LED : Z := 4.

Definition local_address : Z := 0xBB.
Definition destination_address : Z := 0xCC.

Record state := mk {
  code : Z;
  received_code : Z;
  pins : Pins.pins
}.

Definition initial : state := mk 0 0 Pins.all_low.

(** [onReceive]. *)
Definition onReceive (pkt : LoRa.packet) (s : state) : state :=
  match LoRa.address_filter local_address destination_address pkt with
  | None => s
  | Some fifo =>
      mk (CInt.to_byte (fst (LoRa.read fifo))) (received_code s) (pins s)
  end.

(** [LED_actuation(code)]. *)
Definition LED_actuation (c : Z) (s : state) : state :=
  let received := if Codec.forbidden c then received_code s else c in
  let '(received_fill_sw_state, received_dump_sw_state,
        received_check_sw_state) := Codec.decode received in
  let p := Pins.digitalWrite FILL_LED received_fill_sw_state (pins s) in
  let p := Pins.digitalWrite DUMP_LED received_dump_sw_state p in
  let p := Pins.digitalWrite CHECK_LED received_check_sw_state p in
  mk (code s) received p.

(** [sendMessage(data)]: the packet that goes out. *)
Definition sendMessage (data : string) : LoRa.packet :=
  let p := LoRa.write destination_address [] in
  let p := LoRa.write local_address p in
  LoRa.print data p.

(** A sequence of [LED_actuation] calls, first code first. *)
Definition run (codes : list Z) (s : state) : state :=
  fold_left (fun s c => LED_actuation c s) codes s.

End UltrasonicBox.

(** ** Command box ([EGODS_command_box_inter.ino]) *)

Module CommandBox.

Definition FILL_SW : Z := 4.
Definition DUMP_SW : Z := 5.
Definition CHECK_SW : Z := 6.

Definition local_address : Z := 0xCC.
Definition destination_address : Z := 0xBB.

Record state := mk {
  opcode : Z;
  eight_bit_opcode : string;
  fill_pres_str : string;
  dump_pres_str : string;
  check_pres_str : string;
  set_up_success : Z;
  loop_fail_once : Z;
  last_send_time : Z;
  interval : Z
}.

Definition initial : state := mk 0 "" "" "" "" 0 0 0 1000.

Definition set_opcode v s :=
  mk v (eight_bit_opcode s) (fill_pres_str s) (dump_pres_str s)
     (check_pres_str s) (set_up_success s) (loop_fail_once s)
     (last_send_time s) (interval s).
Definition set_eight_bit_opcode v s :=
  mk (opcode s) v (fill_pres_str s) (dump_pres_str s)
     (check_pres_str s) (set_up_success s) (loop_fail_once s)
     (last_send_time s) (interval s).
Definition set_pres_str f d c s :=
  mk (opcode s) (eight_bit_opcode s) f d c
     (set_up_success s) (loop_fail_once s)
     (last_send_time s) (interval s).
Definition set_set_up_success v s :=
  mk (opcode s) (eight_bit_opcode s) (fill_pres_str s) (dump_pres_str s)
     (check_pres_str s) v (loop_fail_once s)
     (last_send_time s) (interval s).
Definition set_loop_fail_once v s :=
  mk (opcode s) (eight_bit_opcode s) (fill_pres_str s) (dump_pres_str s)
     (check_pres_str s) (set_up_success s) v
     (last_send_time s) (interval s).
Definition set_last_send_time v s :=
  mk (opcode s) (eight_bit_opcode s) (fill_pres_str s) (dump_pres_str s)
     (check_pres_str s) (set_up_success s) (loop_fail_once s)
     v (interval s).
Definition set_interval v s :=
  mk (opcode s) (eight_bit_opcode s) (fill_pres_str s) (dump_pres_str s)
     (check_pres_str s) (set_up_success s) (loop_fail_once s)
     (last_send_time s) v.

Record env := mk_env {
  millis_test : Z;
  digitalRead : Z -> Z;
  millis_stamp : Z;
  random_raw : N
}.

Definition setup (lora_begin : bool) (s : state) : state :=
  if negb lora_begin then s else set_set_up_success 1 s.

(** [opcode_generator()]. *)
Definition opcode_generator (e : env) : Z :=
  Codec.encode (digitalRead e FILL_SW) (digitalRead e DUMP_SW)
               (digitalRead e CHECK_SW).

(** [sendMessage(code)]. *)
Definition sendMessage (code : Z) : LoRa.packet :=
  let p := LoRa.write destination_address [] in
  let p := LoRa.write local_address p in
  LoRa.write code p.

(** The [while (LoRa.available())] loop of [onReceive]: one turn per
    byte of the FIFO, which [LoRa.read()] takes from the front. *)
Fixpoint scan (fifo : LoRa.packet) (separator : Z)
    (fill_pres_str dump_pres_str check_pres_str : string)
    : string * string * string :=
  match fifo with
  | [] => (fill_pres_str, dump_pres_str, check_pres_str)
  | b :: rest =>
      let curr_char := LoRa.char_of_int (LoRa.byte_val b) in
      if separator =? 0 then
        if Ascii.eqb curr_char "|" then
          scan rest 1 fill_pres_str dump_pres_str check_pres_str
        else
          scan rest separator (WString.append_char fill_pres_str curr_char)
               dump_pres_str check_pres_str
      else if separator =? 1 then
        if Ascii.eqb curr_char "|" then
          scan rest 2 fill_pres_str dump_pres_str check_pres_str
        else
          scan rest separator fill_pres_str
               (WString.append_char dump_pres_str curr_char) check_pres_str
      else if separator =? 2 then
        scan rest separator fill_pres_str dump_pres_str
             (WString.append_char check_pres_str curr_char)
      else
        scan rest separator fill_pres_str dump_pres_str check_pres_str
  end.

(** Lines 157 to 180 of [onReceive]: the separator count starts at 0
    and the three strings are cleared before the scan. *)
Definition decodeSensors (payload : LoRa.packet) : string * string * string :=
  scan payload 0 "" "" "".

(** [onReceive]. *)
Definition onReceive (pkt : LoRa.packet) (s : state) : state :=
  match LoRa.address_filter local_address destination_address pkt with
  | None => s
  | Some fifo =>
      let '(f, d, c) := decodeSensors fifo in set_pres_str f d c s
  end.

Definition eight_bit_code_format (code : Z) (s : state) : state :=
  set_eight_bit_opcode (WString.eight_bits code) s.

Definition due (now : Z) (s : state) : bool :=
  CInt.to_ulong (CInt.to_ulong now - CInt.to_ulong (last_send_time s))
    >? CInt.to_ulong (interval s).

(** [loop]. *)
Definition loop (e : env) (s : state) : state * option LoRa.packet :=
  if negb (loop_fail_once s =? 0) then (s, None)
  else if set_up_success s =? 0 then (set_loop_fail_once 1 s, None)
  else if due (millis_test e) s then
    let s := set_opcode (opcode_generator e) s in
    let s := eight_bit_code_format (opcode s) s in
    let pkt := sendMessage (opcode s) in
    let s := set_last_send_time (CInt.to_long (millis_stamp e)) s in
    let s := set_interval
               (CInt.to_int (WMath.random 1000 (random_raw e) + 500)) s in
    (s, Some pkt)
  else (s, None).

Inductive reachable : state -> Prop :=
| reach_setup : forall ok, reachable (setup ok initial)
| reach_receive : forall pkt s,
    reachable s -> reachable (onReceive pkt s)
| reach_loop : forall e s,
    reachable s -> reachable (fst (loop e s)).

End CommandBox.

(** ** First prototype, actuator side
       ([EGODS_remote_fill_station_prelim/EGODS_actuator_box.ino]) *)

Module PrelimActuator.

Definition FILL_LED : Z := 4.
Definition DUMP_LED : Z := 7.
Definition CHECK_LED : Z := 8.

Record state := mk {
  set_up_success : Z;
  loop_fail_once : Z;
  encoded_message : Z;
  received_message : Z;
  eight_bit_encoded_message : string;
  pins : Pins.pins
}.

Definition initial : state := mk 0 0 0 0 "" Pins.all_low.

Definition setup (lora_begin : bool) (s : state) : state :=
  if negb lora_begin then s
  else mk 1 (loop_fail_once s) (encoded_message s) (received_message s)
          (eight_bit_encoded_message s) (pins s).

(** The test of this [LED_actuation], written with the bitwise [|]:
    [message==1 | message==3 | message==6 | message==7]. *)
Definition forbidden (message : Z) : bool :=
  negb (Z.lor (Z.lor (Z.lor (Z.b2z (message =? 1)) (Z.b2z (message =? 3)))
                     (Z.b2z (message =? 6)))
              (Z.b2z (message =? 7)) =? 0).

(** [LED_actuation(message)]. *)
Definition LED_actuation (message : Z) (s : state) : state :=
  let received := if forbidden message then received_message s else message in
  let '(received_fill_sw_state, received_dump_sw_state,
        received_check_sw_state) := Codec.decode received in
  let text := WString.eight_bits received in
  let p := Pins.digitalWrite FILL_LED received_fill_sw_state (pins s) in
  let p := Pins.digitalWrite DUMP_LED received_dump_sw_state p in
  let p := Pins.digitalWrite CHECK_LED received_check_sw_state p in
  mk (set_up_success s) (loop_fail_once s) (encoded_message s)
     received text p.

Definition apply (message : Z) (s : state) : Z * state :=
  let s' := LED_actuation message s in (received_message s', s').

Definition run (messages : list Z) (s : state) : state :=
  fold_left (fun s message => LED_actuation message s) messages s.

(** [state_determination(state_encode)]. *)
Definition state_determination (state_encode : Z) : string :=
  if state_encode =? 0 then "off"
  else if state_encode =? 1 then "don't care"
  else if state_encode =? 2 then "dumping"
  else if state_encode =? 4 then "fill-ready"
  else if state_encode =? 5 then "filling"
  else if negb (Z.lor (Z.lor (Z.b2z (state_encode =? 3))
                             (Z.b2z (state_encode =? 6)))
                      (Z.b2z (state_encode =? 7)) =? 0)
  then "forbidden"
  else "unknown".

(** [loop]; the argument is the packet that [LoRa.parsePacket()] found,
    empty when there is none. *)
Definition loop (pkt : LoRa.packet) (s : state) : state :=
  if negb (loop_fail_once s =? 0) then s
  else if set_up_success s =? 0 then
    mk (set_up_success s) 1 (encoded_message s) (received_message s)
       (eight_bit_encoded_message s) (pins s)
  else
    let packet_size := LoRa.available pkt in
    if packet_size =? 0 then s
    else
      let m := CInt.to_byte (fst (LoRa.read pkt)) in
      let s := mk (set_up_success s) (loop_fail_once s) m
                  (received_message s) (WString.eight_bits m) (pins s) in
      LED_actuation (encoded_message s) s.

(** Successive iterations of [loop], one polled packet each. *)
Definition poll (pkts : list LoRa.packet) (s : state) : state :=
  fold_left (fun s pkt => loop pkt s) pkts s.

End PrelimActuator.

(** ** First prototype, command side
       ([EGODS_remote_fill_station_prelim/EGODS_command_box.ino]) *)

Module PrelimCommand.

Definition FILL_SW : Z := 4.
Definition DUMP_SW : Z := 7.
Definition CHECK_SW : Z := 8.

(** [command_message()]: the new [encoded_message]. *)
Definition command_message (digitalRead : Z -> Z) : Z :=
  Codec.encode (digitalRead FILL_SW) (digitalRead DUMP_SW)
               (digitalRead CHECK_SW).

(** [state_determination(state_encode)]. *)
Definition state_determination (state_encode : Z) : string :=
  if state_encode =? 0 then "off"
  else if state_encode =? 1 then "don't care"
  else if state_encode =? 2 then "dumping"
  else if state_encode =? 4 then "fill-ready"
  else if state_encode =? 5 then "filling"
  else if negb (Z.lor (Z.lor (Z.b2z (state_encode =? 3))
                             (Z.b2z (state_encode =? 6)))
                      (Z.b2z (state_encode =? 7)) =? 0)
  then "forbidden"
  else "unknown".

Record state := mk {
  set_up_success : Z;
  loop_fail_once : Z;
  encoded_message : Z;
  prev_encoded_message : Z;
  eight_bit_encoded_message : string;
  fill_sw_state : Z;
  dump_sw_state : Z;
  check_sw_state : Z
}.

Definition initial : state := mk 0 0 0 1 "" 0 0 0.

Definition setup (lora_begin : bool) (s : state) : state :=
  if negb lora_begin then s
  else mk 1 (loop_fail_once s) (encoded_message s) (prev_encoded_message s)
          (eight_bit_encoded_message s) (fill_sw_state s) (dump_sw_state s)
          (check_sw_state s).

(** [loop]: [command_message()] with the three globals it leaves,
    [eight_bit_message_format], the packet of the single byte
    [encoded_message], and [prev_encoded_message = encoded_message]. *)
Definition loop (digitalRead : Z -> Z) (s : state)
    : state * option LoRa.packet :=
  if negb (loop_fail_once s =? 0) then (s, None)
  else if set_up_success s =? 0 then
    (mk (set_up_success s) 1 (encoded_message s) (prev_encoded_message s)
        (eight_bit_encoded_message s) (fill_sw_state s) (dump_sw_state s)
        (check_sw_state s), None)
  else
    let fill :=
      CInt.to_byte (Z.shiftl (CInt.to_byte (digitalRead FILL_SW)) 2) in
    let dump :=
      CInt.to_byte (Z.shiftl (CInt.to_byte (digitalRead DUMP_SW)) 1) in
    let check := CInt.to_byte (digitalRead CHECK_SW) in
    let m := command_message digitalRead in
    (mk (set_up_success s) (loop_fail_once s) m m (WString.eight_bits m)
        fill dump check,
     Some (LoRa.write m [])).

End PrelimCommand.

(** ** The design document's vocabulary *)

Module Design.

(** The codes that must not reach the valves. *)
Definition unsafe (code : Z) : Prop :=
  code = 1 \/ code = 3 \/ code = 6 \/ code = 7.

(** The state labels, a closed enumeration. *)
Inductive StateLabel :=
| off | dont_care | dumping | forbidden | fill_ready | filling | unknown.

(** The table of codes and labels as the design document prints it;
    everything outside the table is [unknown]. *)
Definition table (code : Z) : StateLabel :=
  match code with
  | 0 => off
  | 1 => dont_care
  | 2 => dumping
  | 3 => forbidden
  | 4 => fill_ready
  | 5 => filling
  | 6 => forbidden
  | 7 => forbidden
  | _ => unknown
  end.

(** How the sketches spell a label. *)
Definition text (l : StateLabel) : string :=
  match l with
  | off => "off"
  | dont_care => "don't care"
  | dumping => "dumping"
  | forbidden => "forbidden"
  | fill_ready => "fill-ready"
  | filling => "filling"
  | unknown => "unknown"
  end.

(** The separator of the sensor payload. *)
Definition bar : Byte.byte := "|"%byte.

(** Cut a byte sequence at its first separator: what stands before
    it, and what follows it when there is one. *)
Fixpoint cut (l : list Byte.byte) : list Byte.byte * option (list Byte.byte) :=
  match l with
  | [] => ([], None)
  | b :: rest =>
      if Byte.eqb b bar then ([], Some rest)
      else let '(a, r) := cut rest in (b :: a, r)
  end.

(** The three fields as the design document describes them: the first
    two end at a separator, the third takes all that is left. *)
Definition fields (payload : list Byte.byte) : string * string * string :=
  let '(a, r1) := cut payload in
  match r1 with
  | None => (string_of_list_byte a, "", "")
  | Some r =>
      let '(b, r2) := cut r in
      match r2 with
      | None => (string_of_list_byte a, string_of_list_byte b, "")
      | Some c =>
          (string_of_list_byte a, string_of_list_byte b,
           string_of_list_byte c)
      end
  end%string.

End Design.

(** ** Runs of the callback sketches: callbacks and iterations of
       [loop] in the order they happen, and the packets sent on the way *)

Module ActuatorRun.

Inductive event :=
| Receive (pkt : LoRa.packet)
| Tick (e : ActuatorBox.env).

Definition step (ev : event) (s : ActuatorBox.state)
    : ActuatorBox.state * option LoRa.packet :=
  match ev with
  | Receive pkt => (ActuatorBox.onReceive pkt s, None)
  | Tick e => ActuatorBox.loop e s
  end.

Fixpoint trace (evs : list event) (s : ActuatorBox.state)
    : ActuatorBox.state * list LoRa.packet :=
  match evs with
  | [] => (s, [])
  | ev :: rest =>
      let '(s1, sent) := step ev s in
      let '(s2, later) := trace rest s1 in
      (s2, match sent with Some p => p :: later | None => later end)
  end.


(** The three output pins carry the three low bits of the latch and no
    other pin has been driven. *)
Definition pins_follow_latch (s : ActuatorBox.state) : Prop :=
  ActuatorBox.pins s ActuatorBox.FILL_COMND
    = Z.land (Z.shiftr (ActuatorBox.rcv_opcode s) 2) 1
  /\ ActuatorBox.pins s ActuatorBox.DUMP_COMND
    = Z.land (Z.shiftr (ActuatorBox.rcv_opcode s) 1) 1
  /\ ActuatorBox.pins s ActuatorBox.CHECK_COMND
    = Z.land (ActuatorBox.rcv_opcode s) 1
  /\ (forall pin, pin <> ActuatorBox.FILL_COMND ->
                  pin <> ActuatorBox.DUMP_COMND ->
                  pin <> ActuatorBox.CHECK_COMND ->
                  ActuatorBox.pins s pin = 0).

End ActuatorRun.

Module CommandRun.

Inductive event :=
| Receive (pkt : LoRa.packet)
| Tick (e : CommandBox.env).

Definition step (ev : event) (s : CommandBox.state)
    : CommandBox.state * option LoRa.packet :=
  match ev with
  | Receive pkt => (CommandBox.onReceive pkt s, None)
  | Tick e => CommandBox.loop e s
  end.

Fixpoint trace (evs : list event) (s : CommandBox.state)
    : CommandBox.state * list LoRa.packet :=
  match evs with
  | [] => (s, [])
  | ev :: rest =>
      let '(s1, sent) := step ev s in
      let '(s2, later) := trace rest s1 in
      (s2, match sent with Some p => p :: later | None => later end)
  end.

End CommandRun.

(** ** Reading a diagnostic bit string back *)

Module Readback.



End Readback.

(** * Properties *)

(** ** Machine integers and bytes *)

Lemma to_byte_small (z : Z) : CInt.is_byte z -> CInt.to_byte z = z.
Proof. intros H. apply Z.mod_small. exact H. Qed.

Lemma to_long_small (z : Z) :
  - 2 ^ 31 <= z < 2 ^ 31 -> CInt.to_long z = z.
Proof.
  intros H. unfold CInt.to_long.
  rewrite Z.mod_small; lia.
Qed.

Lemma to_ulong_small (z : Z) : 0 <= z < 2 ^ 32 -> CInt.to_ulong z = z.
Proof. intros H. apply Z.mod_small. exact H. Qed.

Lemma land_1_bit (z : Z) : Z.land z 1 = 0 \/ Z.land z 1 = 1.
Proof.
  assert (E : Z.land z 1 = z mod 2) by (apply (Z.land_ones z 1); lia).
  rewrite E. pose proof (Z.mod_pos_bound z 2). lia.
Qed.

Lemma to_byte_land_1 (z : Z) : CInt.to_byte (Z.land z 1) = Z.land z 1.
Proof.
  apply to_byte_small. unfold CInt.is_byte.
  destruct (land_1_bit z) as [-> | ->]; lia.
Qed.

Lemma byte_val_range (b : Byte.byte) : CInt.is_byte (LoRa.byte_val b).
Proof.
  unfold CInt.is_byte, LoRa.byte_val.
  pose proof (Byte.to_N_bounded b). lia.
Qed.

Lemma wire_byte_val (b : Byte.byte) : LoRa.wire_byte (LoRa.byte_val b) = b.
Proof.
  unfold LoRa.wire_byte.
  rewrite (to_byte_small _ (byte_val_range b)).
  unfold LoRa.byte_val. rewrite N2Z.id, Byte.of_to_N. reflexivity.
Qed.

Lemma byte_val_inj (a b : Byte.byte) :
  LoRa.byte_val a = LoRa.byte_val b -> a = b.
Proof.
  intros H. rewrite <- (wire_byte_val a), <- (wire_byte_val b).
  now rewrite H.
Qed.

Lemma to_byte_byte_val (b : Byte.byte) :
  CInt.to_byte (LoRa.byte_val b) = LoRa.byte_val b.
Proof. apply to_byte_small, byte_val_range. Qed.

Lemma byte_val_wire (z : Z) :
  CInt.is_byte z -> LoRa.byte_val (LoRa.wire_byte z) = z.
Proof.
  intros H. unfold LoRa.wire_byte, LoRa.byte_val.
  rewrite (to_byte_small _ H).
  destruct (Byte.of_N (Z.to_N z)) as [b |] eqn:E.
  - apply Byte.to_of_N in E. rewrite E. unfold CInt.is_byte in H. lia.
  - apply Byte.of_N_None_iff in E. unfold CInt.is_byte in H. lia.
Qed.

(** ** The forbidden-state test *)

Lemma forbidden_unsafe (code : Z) :
  Codec.forbidden code = true <-> Design.unsafe code.
Proof.
  unfold Codec.forbidden, Design.unsafe.
  rewrite !orb_true_iff, !Z.eqb_eq. tauto.
Qed.

Lemma forbidden_safe (code : Z) :
  Codec.forbidden code = false <-> ~ Design.unsafe code.
Proof.
  rewrite <- forbidden_unsafe. destruct (Codec.forbidden code); split;
    intros; congruence.
Qed.

(** The bitwise [|] of the prototype decides the same set as [||]. *)
Lemma prelim_forbidden_same (message : Z) :
  PrelimActuator.forbidden message = Codec.forbidden message.
Proof.
  unfold PrelimActuator.forbidden, Codec.forbidden.
  destruct (message =? 1), (message =? 3), (message =? 6), (message =? 7);
    reflexivity.
Qed.

(** What one call of [LED_actuation] leaves in the latch. *)
Lemma LED_actuation_latch (code : Z) (s : ActuatorBox.state) :
  ActuatorBox.rcv_opcode (ActuatorBox.LED_actuation code s)
  = if Codec.forbidden code then ActuatorBox.rcv_opcode s else code.
Proof.
  unfold ActuatorBox.LED_actuation.
  destruct (Codec.forbidden code); reflexivity.
Qed.

Lemma prelim_LED_actuation_latch (message : Z) (s : PrelimActuator.state) :
  PrelimActuator.received_message (PrelimActuator.LED_actuation message s)
  = if Codec.forbidden message then PrelimActuator.received_message s
    else message.
Proof.
  unfold PrelimActuator.LED_actuation.
  rewrite prelim_forbidden_same.
  destruct (Codec.forbidden message); reflexivity.
Qed.

(** The pins after a call carry the three low bits of the latch. *)
Lemma LED_actuation_pins (code : Z) (s : ActuatorBox.state) :
  let s' := ActuatorBox.LED_actuation code s in
  ActuatorBox.pins s' ActuatorBox.FILL_COMND
    = Z.land (Z.shiftr (ActuatorBox.rcv_opcode s') 2) 1
  /\ ActuatorBox.pins s' ActuatorBox.DUMP_COMND
    = Z.land (Z.shiftr (ActuatorBox.rcv_opcode s') 1) 1
  /\ ActuatorBox.pins s' ActuatorBox.CHECK_COMND
    = Z.land (ActuatorBox.rcv_opcode s') 1.
Proof.
  unfold ActuatorBox.LED_actuation, Codec.decode.
  destruct (Codec.forbidden code); cbn -[Z.land Z.shiftr CInt.to_byte];
    rewrite !to_byte_land_1; auto.
Qed.

(** C1. Latch contract of [LED_actuation], in the callback sketch and in
    the prototype: an unsafe code (1, 3, 6 or 7) leaves the latched code
    [L] where it is and [L] is the effective code; any other code becomes
    both the effective code and the latched code. *)
Theorem latch_contract :
  forall (newCode : Z) (s : ActuatorBox.state) (p : PrelimActuator.state),
    (Design.unsafe newCode ->
       fst (ActuatorBox.apply newCode s) = ActuatorBox.rcv_opcode s
       /\ ActuatorBox.rcv_opcode (snd (ActuatorBox.apply newCode s))
          = ActuatorBox.rcv_opcode s
       /\ fst (PrelimActuator.apply newCode p)
          = PrelimActuator.received_message p
       /\ PrelimActuator.received_message (snd (PrelimActuator.apply newCode p))
          = PrelimActuator.received_message p)
    /\ (~ Design.unsafe newCode ->
       fst (ActuatorBox.apply newCode s) = newCode
       /\ ActuatorBox.rcv_opcode (snd (ActuatorBox.apply newCode s)) = newCode
       /\ fst (PrelimActuator.apply newCode p) = newCode
       /\ PrelimActuator.received_message (snd (PrelimActuator.apply newCode p))
          = newCode).
Proof.
  intros newCode s p.
  unfold ActuatorBox.apply, PrelimActuator.apply. cbn [fst snd].
  rewrite LED_actuation_latch, prelim_LED_actuation_latch.
  split; intros H.
  - apply forbidden_unsafe in H. rewrite H. auto.
  - apply forbidden_safe in H. rewrite H. auto.
Qed.

Lemma latch_contract_witness :
  Design.unsafe 7 /\ ~ Design.unsafe 5
  /\ fst (ActuatorBox.apply 7
            (ActuatorBox.set_rcv_opcode 5 ActuatorBox.initial)) = 5
  /\ fst (ActuatorBox.apply 5 ActuatorBox.initial) = 5.
Proof.
  assert (U : Design.unsafe 7) by (unfold Design.unsafe; lia).
  assert (S : ~ Design.unsafe 5) by (unfold Design.unsafe; lia).
  split; [exact U | split; [exact S | split]].
  - exact (proj1 (proj1 (latch_contract 7
             (ActuatorBox.set_rcv_opcode 5 ActuatorBox.initial)
             PrelimActuator.initial) U)).
  - exact (proj1 (proj2 (latch_contract 5 ActuatorBox.initial
             PrelimActuator.initial) S)).
Defined.

(** ** The latch never holds an unsafe code *)

Lemma LED_actuation_keeps_safe (code : Z) (s : ActuatorBox.state) :
  ~ Design.unsafe (ActuatorBox.rcv_opcode s) ->
  ~ Design.unsafe (ActuatorBox.rcv_opcode (ActuatorBox.LED_actuation code s)).
Proof.
  intros H. rewrite LED_actuation_latch.
  destruct (Codec.forbidden code) eqn:E; [exact H | now apply forbidden_safe].
Qed.

Lemma prelim_LED_actuation_keeps_safe (m : Z) (s : PrelimActuator.state) :
  ~ Design.unsafe (PrelimActuator.received_message s) ->
  ~ Design.unsafe
      (PrelimActuator.received_message (PrelimActuator.LED_actuation m s)).
Proof.
  intros H. rewrite prelim_LED_actuation_latch.
  destruct (Codec.forbidden m) eqn:E; [exact H | now apply forbidden_safe].
Qed.

Lemma run_keeps_safe (codes : list Z) :
  forall s, ~ Design.unsafe (ActuatorBox.rcv_opcode s) ->
            ~ Design.unsafe (ActuatorBox.rcv_opcode (ActuatorBox.run codes s)).
Proof.
  induction codes as [| c codes IH]; intros s H; cbn.
  - exact H.
  - apply IH, LED_actuation_keeps_safe, H.
Qed.

Lemma prelim_run_keeps_safe (codes : list Z) :
  forall s, ~ Design.unsafe (PrelimActuator.received_message s) ->
            ~ Design.unsafe
                (PrelimActuator.received_message (PrelimActuator.run codes s)).
Proof.
  induction codes as [| c codes IH]; intros s H; cbn.
  - exact H.
  - apply IH, prelim_LED_actuation_keeps_safe, H.
Qed.

Lemma zero_is_safe : ~ Design.unsafe 0.
Proof. unfold Design.unsafe. lia. Qed.

(** The same holds along every run of the whole callback sketch. *)
Lemma reachable_latch_safe (s : ActuatorBox.state) :
  ActuatorBox.reachable s -> ~ Design.unsafe (ActuatorBox.rcv_opcode s).
Proof.
  induction 1 as [ok | pkt s R IH | e s R IH].
  - destruct ok; exact zero_is_safe.
  - unfold ActuatorBox.onReceive.
    destruct (LoRa.address_filter _ _ pkt); exact IH.
  - unfold ActuatorBox.loop.
    destruct (negb (ActuatorBox.loop_fail_once s =? 0)); [exact IH |].
    destruct (ActuatorBox.set_up_success s =? 0); [exact IH |].
    destruct (ActuatorBox.due (ActuatorBox.millis_test e) s); [| exact IH].
    cbn [fst]. unfold ActuatorBox.eight_bit_code_format.
    cbn [ActuatorBox.rcv_opcode ActuatorBox.set_eight_bit_opcode].
    apply LED_actuation_keeps_safe. exact IH.
Qed.

(** C2. Starting from the initial latch value 0, after any finite
    sequence of [LED_actuation] calls with arbitrary codes, and after
    every prefix of it, the latched code ([rcv_opcode] in the callback
    sketch, [received_message] in the prototype) is none of 1, 3, 6, 7. *)
Theorem latched_code_never_unsafe :
  forall (codes : list Z) (n : nat),
    ~ Design.unsafe
        (ActuatorBox.rcv_opcode
           (ActuatorBox.run (firstn n codes) ActuatorBox.initial))
    /\ ~ Design.unsafe
        (PrelimActuator.received_message
           (PrelimActuator.run (firstn n codes) PrelimActuator.initial)).
Proof.
  intros codes n. split.
  - apply run_keeps_safe. exact zero_is_safe.
  - apply prelim_run_keeps_safe. exact zero_is_safe.
Qed.

(** ** Bytes outside 0..7 *)

Lemma out_of_range_safe (code : Z) : 7 < code -> ~ Design.unsafe code.
Proof. unfold Design.unsafe. lia. Qed.

Lemma filter_actuator_header (payload : LoRa.packet) :
  LoRa.address_filter ActuatorBox.local_address
    ActuatorBox.destination_address (Byte.xbb :: Byte.xcc :: payload)
  = Some payload.
Proof. reflexivity. Qed.

(** What the sketch does with a byte above 7: the callback stores it as
    [opcode] without a range test, the test of [LED_actuation] lets it
    pass because it is none of 1, 3, 6, 7, it becomes the latched code,
    and the pins get its three low bits. *)
Theorem out_of_range_opcode_accepted :
  forall (code : Z) (s : ActuatorBox.state),
    7 < code < 256 ->
    ActuatorBox.opcode
      (ActuatorBox.onReceive [Byte.xbb; Byte.xcc; LoRa.wire_byte code] s)
    = code
    /\ fst (ActuatorBox.apply code s) = code
    /\ ActuatorBox.rcv_opcode (ActuatorBox.LED_actuation code s) = code
    /\ ActuatorBox.pins (ActuatorBox.LED_actuation code s)
         ActuatorBox.FILL_COMND = Z.land (Z.shiftr code 2) 1
    /\ ActuatorBox.pins (ActuatorBox.LED_actuation code s)
         ActuatorBox.DUMP_COMND = Z.land (Z.shiftr code 1) 1
    /\ ActuatorBox.pins (ActuatorBox.LED_actuation code s)
         ActuatorBox.CHECK_COMND = Z.land code 1.
Proof.
  intros code s H.
  assert (L : ActuatorBox.rcv_opcode (ActuatorBox.LED_actuation code s) = code).
  { rewrite LED_actuation_latch.
    assert (E : Codec.forbidden code = false)
      by (apply forbidden_safe, out_of_range_safe; lia).
    now rewrite E. }
  split.
  - unfold ActuatorBox.onReceive. rewrite filter_actuator_header.
    cbn [LoRa.read fst ActuatorBox.set_opcode ActuatorBox.opcode].
    rewrite to_byte_byte_val. apply byte_val_wire. unfold CInt.is_byte. lia.
  - split; [exact L | split; [exact L |]].
    pose proof (LED_actuation_pins code s) as P. cbv zeta in P.
    rewrite L in P. exact P.
Qed.

Lemma out_of_range_opcode_accepted_witness :
  ActuatorBox.rcv_opcode (ActuatorBox.LED_actuation 200 ActuatorBox.initial)
  = 200.
Proof.
  assert (H : 7 < 200 < 256) by lia.
  exact (proj1 (proj2 (proj2
           (out_of_range_opcode_accepted 200 ActuatorBox.initial H)))).
Defined.

(** The byte 200 on a run.  The box holds the latched code 5 (filling:
    fill and check open); the packet BB CC C8 arrives; at the next
    transmit turn the latch holds 200 and the fill and check outputs
    have been switched off. *)
Lemma opcode_200_reaches_the_latch :
  let e := ActuatorBox.mk_env 2000 (fun _ => 512) 2050 7 in
  let s0 := ActuatorBox.setup true ActuatorBox.initial in
  let s1 := ActuatorBox.onReceive [Byte.xbb; Byte.xcc; Byte.x05] s0 in
  let before := fst (ActuatorBox.loop e s1) in
  let s2 := ActuatorBox.onReceive [Byte.xbb; Byte.xcc; Byte.xc8] before in
  let e' := ActuatorBox.mk_env 4000 (fun _ => 512) 4050 7 in
  let after := fst (ActuatorBox.loop e' s2) in
  ActuatorBox.rcv_opcode before = 5
  /\ ActuatorBox.pins before ActuatorBox.FILL_COMND = 1
  /\ ActuatorBox.pins before ActuatorBox.CHECK_COMND = 1
  /\ ActuatorBox.rcv_opcode after = 200
  /\ ActuatorBox.rcv_opcode after <> ActuatorBox.rcv_opcode before
  /\ ActuatorBox.pins after ActuatorBox.FILL_COMND = 0
  /\ ActuatorBox.pins after ActuatorBox.CHECK_COMND = 0.
Proof. vm_compute. repeat split; congruence. Qed.

(** C3. The sketch fails the requirement that a byte outside 0..7 never
    reaches the latch or the outputs.  The latch is there "to counter
    forbidden states", and [LED_actuation] refuses the code 7 (fill,
    dump and check all on); yet the byte 15, and the byte 255 that a
    packet of the two address bytes alone is read as, pass its test,
    are latched at the next transmit turn, and put 1, 1, 1 on the fill,
    dump and check outputs.  The byte 200 is latched as well. *)
Theorem out_of_range_opcode_opens_all_valves :
  let e := ActuatorBox.mk_env 2000 (fun _ => 512) 2050 7 in
  let s0 := ActuatorBox.setup true ActuatorBox.initial in
  let valves s := (ActuatorBox.pins s ActuatorBox.FILL_COMND,
                   ActuatorBox.pins s ActuatorBox.DUMP_COMND,
                   ActuatorBox.pins s ActuatorBox.CHECK_COMND) in
  let after pkt := fst (ActuatorBox.loop e (ActuatorBox.onReceive pkt s0)) in
  (ActuatorBox.rcv_opcode (after [Byte.xbb; Byte.xcc; Byte.x07]) = 0
   /\ valves (after [Byte.xbb; Byte.xcc; Byte.x07]) = (0, 0, 0))
  /\ (ActuatorBox.opcode
        (ActuatorBox.onReceive [Byte.xbb; Byte.xcc; Byte.x0f] s0) = 15
      /\ ActuatorBox.rcv_opcode (after [Byte.xbb; Byte.xcc; Byte.x0f]) = 15
      /\ valves (after [Byte.xbb; Byte.xcc; Byte.x0f]) = (1, 1, 1))
  /\ (ActuatorBox.opcode (ActuatorBox.onReceive [Byte.xbb; Byte.xcc] s0)
      = 255
      /\ ActuatorBox.rcv_opcode (after [Byte.xbb; Byte.xcc]) = 255
      /\ valves (after [Byte.xbb; Byte.xcc]) = (1, 1, 1))
  /\ (ActuatorBox.opcode
        (ActuatorBox.onReceive [Byte.xbb; Byte.xcc; Byte.xc8] s0) = 200
      /\ ActuatorBox.rcv_opcode (after [Byte.xbb; Byte.xcc; Byte.xc8]) = 200).
Proof. vm_compute. repeat split. Qed.

(** ** Classification *)

Lemma prelim_state_determination_same (code : Z) :
  PrelimCommand.state_determination code
  = PrelimActuator.state_determination code.
Proof. reflexivity. Qed.

Lemma table_in_range (code : Z) :
  0 <= code <= 7 ->
  code = 0 \/ code = 1 \/ code = 2 \/ code = 3
  \/ code = 4 \/ code = 5 \/ code = 6 \/ code = 7.
Proof. lia. Qed.

Lemma state_determination_outside (code : Z) :
  ~ 0 <= code <= 7 ->
  PrelimActuator.state_determination code = "unknown"%string.
Proof.
  intros H. unfold PrelimActuator.state_determination.
  repeat match goal with
  | |- context [?x =? ?k] =>
      let E := fresh "E" in
      destruct (Z.eqb_spec x k) as [E | E]; [exfalso; lia | clear E]
  end.
  reflexivity.
Qed.

Lemma state_determination_table (code : Z) :
  PrelimActuator.state_determination code = Design.text (Design.table code).
Proof.
  destruct (Z_le_dec 0 code) as [L |];
    [destruct (Z_le_dec code 7) as [U |] |].
  - destruct (table_in_range code (conj L U))
      as [-> | [-> | [-> | [-> | [-> | [-> | [-> | ->]]]]]]]; reflexivity.
  - rewrite state_determination_outside by lia.
    destruct code as [| p |]; try lia.
    do 3 (destruct p as [p | p |]; try lia; try reflexivity).
  - rewrite state_determination_outside by lia.
    destruct code; try lia. reflexivity.
Qed.

(** C7. [state_determination], the same function in both prototype
    sketches, gives every code from 0 to 7 the label of the table of the
    design document (0 off, 1 don't care, 2 dumping, 3 forbidden,
    4 fill-ready, 5 filling, 6 forbidden, 7 forbidden) and every other
    byte the label unknown. *)
Theorem classification_table :
  (forall code : Z,
     PrelimCommand.state_determination code = Design.text (Design.table code)
     /\ PrelimActuator.state_determination code
        = Design.text (Design.table code))
  /\ (PrelimCommand.state_determination 0 = "off"
      /\ PrelimCommand.state_determination 1 = "don't care"
      /\ PrelimCommand.state_determination 2 = "dumping"
      /\ PrelimCommand.state_determination 3 = "forbidden"
      /\ PrelimCommand.state_determination 4 = "fill-ready"
      /\ PrelimCommand.state_determination 5 = "filling"
      /\ PrelimCommand.state_determination 6 = "forbidden"
      /\ PrelimCommand.state_determination 7 = "forbidden")%string
  /\ (forall code : Z,
        ~ 0 <= code <= 7 ->
        PrelimCommand.state_determination code = "unknown"%string
        /\ PrelimActuator.state_determination code = "unknown"%string).
Proof.
  split; [| split].
  - intros code. rewrite prelim_state_determination_same.
    split; apply state_determination_table.
  - repeat split.
  - intros code H. rewrite prelim_state_determination_same.
    split; apply state_determination_outside, H.
Qed.

Lemma classification_table_witness :
  ~ 0 <= 200 <= 7
  /\ PrelimActuator.state_determination 200 = "unknown"%string.
Proof.
  assert (H : ~ 0 <= 200 <= 7) by lia.
  split; [exact H |].
  exact (proj2 (proj2 (proj2 classification_table) 200 H)).
Defined.

(** ** Opcode codec *)

Lemma decode_bits (code : Z) :
  Codec.decode code
  = (Z.land (Z.shiftr code 2) 1, Z.land (Z.shiftr code 1) 1, Z.land code 1).
Proof. unfold Codec.decode. now rewrite !to_byte_land_1. Qed.

Lemma bit_cases (b : Z) : 0 <= b <= 1 -> b = 0 \/ b = 1.
Proof. lia. Qed.

Lemma encode_bits (fill dump check : Z) :
  0 <= fill <= 1 -> 0 <= dump <= 1 -> 0 <= check <= 1 ->
  Codec.encode fill dump check
  = Z.lor (Z.lor (Z.shiftl fill 2) (Z.shiftl dump 1)) check.
Proof.
  intros F D C.
  destruct (bit_cases _ F) as [-> | ->], (bit_cases _ D) as [-> | ->],
    (bit_cases _ C) as [-> | ->]; reflexivity.
Qed.

(** C8. For binary inputs the encoder of the command box computes
    fill<<2 | dump<<1 | check; the decoder in [LED_actuation] extracts
    (code>>2)&1, (code>>1)&1 and code&1; and for every code from 0 to 7
    decoding, encoding and decoding again gives the first decoding (the
    encoder even gives back the code itself). *)
Theorem opcode_codec_round_trip :
  (forall fill dump check : Z,
     0 <= fill <= 1 -> 0 <= dump <= 1 -> 0 <= check <= 1 ->
     Codec.encode fill dump check
     = Z.lor (Z.lor (Z.shiftl fill 2) (Z.shiftl dump 1)) check)
  /\ (forall e : CommandBox.env,
        CommandBox.opcode_generator e
        = Codec.encode (CommandBox.digitalRead e CommandBox.FILL_SW)
                       (CommandBox.digitalRead e CommandBox.DUMP_SW)
                       (CommandBox.digitalRead e CommandBox.CHECK_SW))
  /\ (forall code : Z,
        Codec.decode code
        = (Z.land (Z.shiftr code 2) 1, Z.land (Z.shiftr code 1) 1,
           Z.land code 1))
  /\ (forall code : Z,
        0 <= code <= 7 ->
        Codec.decode (Codec.encode3 (Codec.decode code)) = Codec.decode code
        /\ Codec.encode3 (Codec.decode code) = code).
Proof.
  split; [exact encode_bits |].
  split; [reflexivity |].
  split; [exact decode_bits |].
  intros code H.
  destruct (table_in_range code H)
    as [-> | [-> | [-> | [-> | [-> | [-> | [-> | ->]]]]]]];
    split; reflexivity.
Qed.

Lemma opcode_codec_round_trip_witness :
  Codec.encode 1 0 1 = 5
  /\ Codec.decode (Codec.encode3 (Codec.decode 5)) = Codec.decode 5.
Proof.
  split.
  - rewrite (proj1 opcode_codec_round_trip 1 0 1) by lia. reflexivity.
  - apply (proj2 (proj2 (proj2 opcode_codec_round_trip)) 5). lia.
Defined.

(** ** Address filter *)

Lemma byte_val_eqb (b c : Byte.byte) :
  (LoRa.byte_val b =? LoRa.byte_val c) = Byte.eqb b c.
Proof.
  destruct (Byte.eqb b c) eqn:E.
  - apply Byte.byte_dec_bl in E. subst. apply Z.eqb_refl.
  - apply Byte.eqb_false in E. apply Z.eqb_neq.
    intros Q. apply byte_val_inj in Q. contradiction.
Qed.

(** The filter on a packet of at least two bytes. *)
Lemma address_filter_two (local peer : Byte.byte) (b0 b1 : Byte.byte)
    (payload : LoRa.packet) :
  LoRa.address_filter (LoRa.byte_val local) (LoRa.byte_val peer)
    (b0 :: b1 :: payload)
  = if Byte.eqb b0 local && Byte.eqb b1 peer then Some payload else None.
Proof.
  unfold LoRa.address_filter.
  cbn [LoRa.available List.length LoRa.read].
  rewrite !to_byte_byte_val, !byte_val_eqb.
  destruct (Z.eqb_spec (Z.of_nat (S (S (List.length payload)))) 0) as [E |];
    [lia |].
  destruct (Byte.eqb b0 local), (Byte.eqb b1 peer); reflexivity.
Qed.

(** The filter on a packet of one byte: the second [LoRa.read()] gives
    -1, which the handler keeps as the byte 255. *)
Lemma address_filter_one (local peer : Byte.byte) (b0 : Byte.byte) :
  LoRa.address_filter (LoRa.byte_val local) (LoRa.byte_val peer) [b0]
  = if Byte.eqb b0 local && Byte.eqb Byte.xff peer then Some [] else None.
Proof.
  unfold LoRa.address_filter.
  cbn [LoRa.available List.length LoRa.read].
  change (CInt.to_byte (-1)) with (LoRa.byte_val Byte.xff).
  rewrite !to_byte_byte_val, !byte_val_eqb.
  cbn [Z.of_nat Z.eqb Pos.of_succ_nat].
  destruct (Byte.eqb b0 local), (Byte.eqb Byte.xff peer); reflexivity.
Qed.

Lemma address_filter_empty (local peer : Z) :
  LoRa.address_filter local peer [] = None.
Proof. reflexivity. Qed.

Lemma address_filter_accepts (local peer : Byte.byte) (pkt : LoRa.packet) :
  LoRa.has_header local peer pkt ->
  LoRa.address_filter (LoRa.byte_val local) (LoRa.byte_val peer) pkt
  = Some (skipn 2 pkt).
Proof.
  intros (L & H0 & H1).
  destruct pkt as [| b0 [| b1 payload]]; cbn in L; try lia.
  cbn in H0, H1. injection H0 as ->. injection H1 as ->.
  rewrite address_filter_two.
  now rewrite !Byte.byte_dec_lb.
Qed.

Lemma address_filter_rejects (local peer : Byte.byte) (pkt : LoRa.packet) :
  peer <> Byte.xff ->
  ~ LoRa.has_header local peer pkt ->
  LoRa.address_filter (LoRa.byte_val local) (LoRa.byte_val peer) pkt = None.
Proof.
  intros P H.
  destruct pkt as [| b0 [| b1 payload]].
  - reflexivity.
  - rewrite address_filter_one.
    destruct (Byte.eqb Byte.xff peer) eqn:E.
    + apply Byte.byte_dec_bl in E. congruence.
    + now rewrite andb_false_r.
  - rewrite address_filter_two.
    destruct (Byte.eqb b0 local) eqn:E0, (Byte.eqb b1 peer) eqn:E1;
      try reflexivity.
    apply Byte.byte_dec_bl in E0, E1. subst. exfalso. apply H.
    unfold LoRa.has_header. cbn. repeat split. lia.
Qed.

Lemma actuator_onReceive_rejects (pkt : LoRa.packet) (s : ActuatorBox.state) :
  ~ LoRa.has_header Byte.xbb Byte.xcc pkt -> ActuatorBox.onReceive pkt s = s.
Proof.
  intros H. unfold ActuatorBox.onReceive.
  change ActuatorBox.local_address with (LoRa.byte_val Byte.xbb).
  change ActuatorBox.destination_address with (LoRa.byte_val Byte.xcc).
  rewrite address_filter_rejects; [reflexivity | discriminate | exact H].
Qed.

Lemma ultrasonic_onReceive_rejects (pkt : LoRa.packet)
    (s : UltrasonicBox.state) :
  ~ LoRa.has_header Byte.xbb Byte.xcc pkt -> UltrasonicBox.onReceive pkt s = s.
Proof.
  intros H. unfold UltrasonicBox.onReceive.
  change UltrasonicBox.local_address with (LoRa.byte_val Byte.xbb).
  change UltrasonicBox.destination_address with (LoRa.byte_val Byte.xcc).
  rewrite address_filter_rejects; [reflexivity | discriminate | exact H].
Qed.

Lemma command_onReceive_rejects (pkt : LoRa.packet) (s : CommandBox.state) :
  ~ LoRa.has_header Byte.xcc Byte.xbb pkt -> CommandBox.onReceive pkt s = s.
Proof.
  intros H. unfold CommandBox.onReceive.
  change CommandBox.local_address with (LoRa.byte_val Byte.xcc).
  change CommandBox.destination_address with (LoRa.byte_val Byte.xbb).
  rewrite address_filter_rejects; [reflexivity | discriminate | exact H].
Qed.

(** C4. With local address 0xBB and peer address 0xCC the filter lets a
    packet through exactly when it has at least two bytes, the first
    0xBB and the second 0xCC; the handler then reads the payload from
    offset 2.  Every other packet, also one of fewer than two bytes, is
    turned away: the handler returns and the state is as before. *)
Theorem address_filter_BB_CC :
  forall pkt : LoRa.packet,
    (LoRa.address_filter 0xBB 0xCC pkt <> None
       <-> LoRa.has_header Byte.xbb Byte.xcc pkt)
    /\ (LoRa.has_header Byte.xbb Byte.xcc pkt ->
        LoRa.address_filter 0xBB 0xCC pkt = Some (skipn 2 pkt)
        /\ (forall s, ActuatorBox.onReceive pkt s
                      = ActuatorBox.set_opcode
                          (CInt.to_byte (fst (LoRa.read (skipn 2 pkt)))) s)
        /\ (forall u, UltrasonicBox.code (UltrasonicBox.onReceive pkt u)
                      = CInt.to_byte (fst (LoRa.read (skipn 2 pkt)))))
    /\ (~ LoRa.has_header Byte.xbb Byte.xcc pkt ->
        LoRa.address_filter 0xBB 0xCC pkt = None
        /\ (forall s, ActuatorBox.onReceive pkt s = s)
        /\ (forall u, UltrasonicBox.onReceive pkt u = u)).
Proof.
  intros pkt.
  assert (A : LoRa.has_header Byte.xbb Byte.xcc pkt ->
              LoRa.address_filter 0xBB 0xCC pkt = Some (skipn 2 pkt))
    by exact (address_filter_accepts Byte.xbb Byte.xcc pkt).
  assert (R : ~ LoRa.has_header Byte.xbb Byte.xcc pkt ->
              LoRa.address_filter 0xBB 0xCC pkt = None).
  { intros H.
    apply (address_filter_rejects Byte.xbb Byte.xcc pkt); [discriminate |].
    exact H. }
  split; [| split].
  - split.
    + intros H.
      destruct (LoRa.address_filter 0xBB 0xCC pkt) eqn:F; [| congruence].
      clear H. rename F into H.
      destruct pkt as [| b0 [| b1 payload]].
      { discriminate H. }
      { assert (T : LoRa.address_filter 0xBB 0xCC [b0]
                    = if Byte.eqb b0 Byte.xbb && Byte.eqb Byte.xff Byte.xcc
                      then Some [] else None)
          by exact (address_filter_one Byte.xbb Byte.xcc b0).
        rewrite T, andb_false_r in H. discriminate H. }
      assert (T : LoRa.address_filter 0xBB 0xCC (b0 :: b1 :: payload)
                  = if Byte.eqb b0 Byte.xbb && Byte.eqb b1 Byte.xcc
                    then Some payload else None)
        by exact (address_filter_two Byte.xbb Byte.xcc b0 b1 payload).
      rewrite T in H.
      destruct (Byte.eqb b0 Byte.xbb) eqn:E0, (Byte.eqb b1 Byte.xcc) eqn:E1;
        try discriminate H.
      apply Byte.byte_dec_bl in E0, E1. subst.
      unfold LoRa.has_header. cbn. repeat split. lia.
    + intros H. rewrite (A H). discriminate.
  - intros H. split; [exact (A H) | split].
    + intros s. unfold ActuatorBox.onReceive.
      change ActuatorBox.local_address with 0xBB.
      change ActuatorBox.destination_address with 0xCC.
      now rewrite (A H).
    + intros u. unfold UltrasonicBox.onReceive.
      change UltrasonicBox.local_address with 0xBB.
      change UltrasonicBox.destination_address with 0xCC.
      now rewrite (A H).
  - intros H. split; [exact (R H) | split].
    + intros s. now apply actuator_onReceive_rejects.
    + intros u. now apply ultrasonic_onReceive_rejects.
Qed.

Lemma address_filter_BB_CC_witness :
  LoRa.has_header Byte.xbb Byte.xcc [Byte.xbb; Byte.xcc; Byte.x05]
  /\ ~ LoRa.has_header Byte.xbb Byte.xcc [Byte.xbb]
  /\ LoRa.address_filter 0xBB 0xCC [Byte.xbb; Byte.xcc; Byte.x05]
     = Some [Byte.x05]
  /\ LoRa.address_filter 0xBB 0xCC [Byte.xbb] = None.
Proof.
  assert (H : LoRa.has_header Byte.xbb Byte.xcc [Byte.xbb; Byte.xcc; Byte.x05]).
  { unfold LoRa.has_header. simpl. repeat split. lia. }
  assert (N : ~ LoRa.has_header Byte.xbb Byte.xcc [Byte.xbb]).
  { unfold LoRa.has_header. simpl. lia. }
  split; [exact H | split; [exact N | split]].
  - exact (proj1 (proj1 (proj2 (address_filter_BB_CC
             [Byte.xbb; Byte.xcc; Byte.x05])) H)).
  - exact (proj1 (proj2 (proj2 (address_filter_BB_CC [Byte.xbb])) N)).
Defined.

(** C10. A packet whose address pair fails the filter (the first byte
    is not the local address, or the second is not the peer address)
    leaves the receive state as it was: the last received opcode on the
    actuator side, the three sensor strings on the command side; the
    handler changes nothing at all. *)
Theorem rejection_keeps_receive_state :
  forall pkt : LoRa.packet,
    (nth_error pkt 0 <> Some Byte.xbb \/ nth_error pkt 1 <> Some Byte.xcc ->
     forall s : ActuatorBox.state,
       ActuatorBox.onReceive pkt s = s
       /\ ActuatorBox.opcode (ActuatorBox.onReceive pkt s)
          = ActuatorBox.opcode s)
    /\ (nth_error pkt 0 <> Some Byte.xcc \/ nth_error pkt 1 <> Some Byte.xbb ->
        forall c : CommandBox.state,
          CommandBox.onReceive pkt c = c
          /\ CommandBox.fill_pres_str (CommandBox.onReceive pkt c)
             = CommandBox.fill_pres_str c
          /\ CommandBox.dump_pres_str (CommandBox.onReceive pkt c)
             = CommandBox.dump_pres_str c
          /\ CommandBox.check_pres_str (CommandBox.onReceive pkt c)
             = CommandBox.check_pres_str c).
Proof.
  intros pkt. split; intros H st.
  - assert (E : ActuatorBox.onReceive pkt st = st).
    { apply actuator_onReceive_rejects. unfold LoRa.has_header. tauto. }
    now rewrite E.
  - assert (E : CommandBox.onReceive pkt st = st).
    { apply command_onReceive_rejects. unfold LoRa.has_header. tauto. }
    now rewrite E.
Qed.

Lemma rejection_keeps_receive_state_witness :
  (nth_error [Byte.xaa; Byte.xcc; Byte.x07] 0 <> Some Byte.xbb
   \/ nth_error [Byte.xaa; Byte.xcc; Byte.x07] 1 <> Some Byte.xcc)
  /\ ActuatorBox.onReceive [Byte.xaa; Byte.xcc; Byte.x07] ActuatorBox.initial
     = ActuatorBox.initial
  /\ (nth_error [Byte.xcc; Byte.xaa; Byte.x31] 0 <> Some Byte.xcc
      \/ nth_error [Byte.xcc; Byte.xaa; Byte.x31] 1 <> Some Byte.xbb)
  /\ CommandBox.onReceive [Byte.xcc; Byte.xaa; Byte.x31] CommandBox.initial
     = CommandBox.initial.
Proof.
  assert (H : nth_error [Byte.xaa; Byte.xcc; Byte.x07] 0 <> Some Byte.xbb
              \/ nth_error [Byte.xaa; Byte.xcc; Byte.x07] 1 <> Some Byte.xcc).
  { left. simpl. discriminate. }
  assert (K : nth_error [Byte.xcc; Byte.xaa; Byte.x31] 0 <> Some Byte.xcc
              \/ nth_error [Byte.xcc; Byte.xaa; Byte.x31] 1 <> Some Byte.xbb).
  { right. simpl. discriminate. }
  split; [exact H | split; [| split; [exact K |]]].
  - exact (proj1 (proj1 (rejection_keeps_receive_state
             [Byte.xaa; Byte.xcc; Byte.x07]) H ActuatorBox.initial)).
  - exact (proj1 (proj2 (rejection_keeps_receive_state
             [Byte.xcc; Byte.xaa; Byte.x31]) K CommandBox.initial)).
Defined.

(** ** Sensor payload *)

Local Open Scope string_scope.

Lemma string_app_assoc (a b c : string) : (a ++ b) ++ c = a ++ (b ++ c).
Proof. induction a as [| x a IH]; cbn; [reflexivity | now rewrite IH]. Qed.

Lemma string_app_empty_r (a : string) : a ++ "" = a.
Proof. induction a as [| x a IH]; cbn; [reflexivity | now rewrite IH]. Qed.

Lemma append_char_app (f : string) (ch : ascii) (t : string) :
  WString.append_char f ch ++ t = f ++ String ch t.
Proof. unfold WString.append_char. now rewrite string_app_assoc. Qed.

Lemma char_of_byte (b : Byte.byte) :
  LoRa.char_of_int (LoRa.byte_val b) = ascii_of_byte b.
Proof. unfold LoRa.char_of_int. now rewrite wire_byte_val. Qed.

Lemma bar_test (b : Byte.byte) :
  Ascii.eqb (ascii_of_byte b) "|" = Byte.eqb b Design.bar.
Proof.
  destruct (Byte.eqb b Design.bar) eqn:E.
  - apply Byte.byte_dec_bl in E. subst. reflexivity.
  - apply Byte.eqb_false in E. apply Ascii.eqb_neq. intros Q.
    apply E. rewrite <- (byte_of_ascii_of_byte b), Q. reflexivity.
Qed.

(** One turn of the scan, by separator count. *)
Lemma scan_step0 (b : Byte.byte) (rest : LoRa.packet) (f d c : string) :
  CommandBox.scan (b :: rest) 0 f d c
  = if Byte.eqb b Design.bar then CommandBox.scan rest 1 f d c
    else CommandBox.scan rest 0 (WString.append_char f (ascii_of_byte b)) d c.
Proof. cbn [CommandBox.scan Z.eqb]. now rewrite char_of_byte, bar_test. Qed.

Lemma scan_step1 (b : Byte.byte) (rest : LoRa.packet) (f d c : string) :
  CommandBox.scan (b :: rest) 1 f d c
  = if Byte.eqb b Design.bar then CommandBox.scan rest 2 f d c
    else CommandBox.scan rest 1 f (WString.append_char d (ascii_of_byte b)) c.
Proof.
  cbn [CommandBox.scan Z.eqb Pos.eqb]. now rewrite char_of_byte, bar_test.
Qed.

Lemma scan_step2 (b : Byte.byte) (rest : LoRa.packet) (f d c : string) :
  CommandBox.scan (b :: rest) 2 f d c
  = CommandBox.scan rest 2 f d (WString.append_char c (ascii_of_byte b)).
Proof. cbn [CommandBox.scan Z.eqb Pos.eqb]. now rewrite char_of_byte. Qed.

(** With two separators seen, the third field takes every byte. *)
Lemma scan_third (l : LoRa.packet) :
  forall f d c, CommandBox.scan l 2 f d c = (f, d, c ++ string_of_list_byte l).
Proof.
  induction l as [| b l IH]; intros f d c.
  - cbn. now rewrite string_app_empty_r.
  - rewrite scan_step2, IH. now rewrite append_char_app.
Qed.

(** With one separator seen, the second field runs to the next one. *)
Lemma scan_second (l : LoRa.packet) :
  forall f d c,
    CommandBox.scan l 1 f d c
    = match Design.cut l with
      | (b, None) => (f, d ++ string_of_list_byte b, c)
      | (b, Some r) =>
          (f, d ++ string_of_list_byte b, c ++ string_of_list_byte r)
      end.
Proof.
  induction l as [| x l IH]; intros f d c.
  - cbn. now rewrite string_app_empty_r.
  - rewrite scan_step1. cbn [Design.cut].
    destruct (Byte.eqb x Design.bar).
    + rewrite scan_third. cbn. now rewrite string_app_empty_r.
    + rewrite IH. destruct (Design.cut l) as [b [r |]]; cbn;
        now rewrite append_char_app.
Qed.

(** With no separator seen, the first field runs to the first one. *)
Lemma scan_first (l : LoRa.packet) :
  forall f d c,
    CommandBox.scan l 0 f d c
    = match Design.cut l with
      | (a, None) => (f ++ string_of_list_byte a, d, c)
      | (a, Some r) => CommandBox.scan r 1 (f ++ string_of_list_byte a) d c
      end.
Proof.
  induction l as [| x l IH]; intros f d c.
  - cbn. now rewrite string_app_empty_r.
  - rewrite scan_step0. cbn [Design.cut].
    destruct (Byte.eqb x Design.bar).
    + cbn. now rewrite string_app_empty_r.
    + rewrite IH. destruct (Design.cut l) as [a [r |]]; cbn;
        now rewrite append_char_app.
Qed.

(** The scan of the handler computes the fields of the design. *)
Lemma decodeSensors_fields (payload : LoRa.packet) :
  CommandBox.decodeSensors payload = Design.fields payload.
Proof.
  unfold CommandBox.decodeSensors, Design.fields.
  rewrite scan_first. destruct (Design.cut payload) as [a [r |]];
    [| reflexivity].
  rewrite scan_second. destruct (Design.cut r) as [b [c |]]; reflexivity.
Qed.

Lemma cut_no_bar (a : LoRa.packet) :
  ~ In Design.bar a -> Design.cut a = (a, None).
Proof.
  induction a as [| x a IH]; intros H; cbn; [reflexivity |].
  destruct (Byte.eqb x Design.bar) eqn:E.
  - apply Byte.byte_dec_bl in E. subst. exfalso. apply H. now left.
  - rewrite IH; [reflexivity |]. intros Q. apply H. now right.
Qed.

Lemma cut_at_bar (a r : LoRa.packet) :
  ~ In Design.bar a -> Design.cut (a ++ Design.bar :: r)%list = (a, Some r).
Proof.
  induction a as [| x a IH]; intros H; cbn; [reflexivity |].
  destruct (Byte.eqb x Design.bar) eqn:E.
  - apply Byte.byte_dec_bl in E. subst. exfalso. apply H. now left.
  - rewrite IH; [reflexivity |]. intros Q. apply H. now right.
Qed.

Lemma fields_none (a : LoRa.packet) :
  ~ In Design.bar a ->
  CommandBox.decodeSensors a = (string_of_list_byte a, "", "").
Proof.
  intros H. rewrite decodeSensors_fields. unfold Design.fields.
  now rewrite cut_no_bar.
Qed.

Lemma fields_one (a b : LoRa.packet) :
  ~ In Design.bar a -> ~ In Design.bar b ->
  CommandBox.decodeSensors (a ++ Design.bar :: b)%list
  = (string_of_list_byte a, string_of_list_byte b, "").
Proof.
  intros Ha Hb. rewrite decodeSensors_fields. unfold Design.fields.
  now rewrite cut_at_bar, cut_no_bar.
Qed.

Lemma fields_two (a b c : LoRa.packet) :
  ~ In Design.bar a -> ~ In Design.bar b ->
  CommandBox.decodeSensors (a ++ Design.bar :: b ++ Design.bar :: c)%list
  = (string_of_list_byte a, string_of_list_byte b, string_of_list_byte c).
Proof.
  intros Ha Hb. rewrite decodeSensors_fields. unfold Design.fields.
  now rewrite cut_at_bar, cut_at_bar.
Qed.

(** C6. The scan of the sensor payload, for every byte sequence: the
    first field ends strictly at the first separator, the second strictly
    at the second, the third takes all the rest verbatim, further
    separators included; a field whose opening separator never comes is
    empty.  The two payloads of the design document give ("5", "", "")
    and ("1", "2", "3|4"). *)
Theorem sensor_fields_asymmetry :
  (forall payload : LoRa.packet,
     CommandBox.decodeSensors payload = Design.fields payload)
  /\ (forall a : LoRa.packet,
        ~ In Design.bar a ->
        CommandBox.decodeSensors a = (string_of_list_byte a, "", ""))
  /\ (forall a b : LoRa.packet,
        ~ In Design.bar a -> ~ In Design.bar b ->
        CommandBox.decodeSensors (a ++ Design.bar :: b)%list
        = (string_of_list_byte a, string_of_list_byte b, ""))
  /\ (forall a b c : LoRa.packet,
        ~ In Design.bar a -> ~ In Design.bar b ->
        CommandBox.decodeSensors (a ++ Design.bar :: b ++ Design.bar :: c)%list
        = (string_of_list_byte a, string_of_list_byte b,
           string_of_list_byte c))
  /\ CommandBox.decodeSensors (list_byte_of_string "5|") = ("5", "", "")
  /\ CommandBox.decodeSensors (list_byte_of_string "1|2|3|4")
     = ("1", "2", "3|4").
Proof.
  split; [exact decodeSensors_fields |].
  split; [exact fields_none |].
  split; [exact fields_one |].
  split; [exact fields_two |].
  split; reflexivity.
Qed.

Lemma sensor_fields_asymmetry_witness :
  ~ In Design.bar (list_byte_of_string "1")
  /\ ~ In Design.bar (list_byte_of_string "2")
  /\ CommandBox.decodeSensors
       (list_byte_of_string "1" ++ Design.bar
          :: list_byte_of_string "2" ++ Design.bar
          :: list_byte_of_string "3|4")%list
     = ("1", "2", "3|4").
Proof.
  assert (H1 : ~ In Design.bar (list_byte_of_string "1")).
  { simpl. intros [Q | []]. discriminate Q. }
  assert (H2 : ~ In Design.bar (list_byte_of_string "2")).
  { simpl. intros [Q | []]. discriminate Q. }
  split; [exact H1 | split; [exact H2 |]].
  exact (proj1 (proj2 (proj2 (proj2 sensor_fields_asymmetry)))
           (list_byte_of_string "1") (list_byte_of_string "2")
           (list_byte_of_string "3|4") H1 H2).
Defined.

Lemma bytes_of_app (a b : string) :
  list_byte_of_string (a ++ b)
  = (list_byte_of_string a ++ list_byte_of_string b)%list.
Proof.
  induction a as [| x a IH]; [reflexivity |].
  change (list_byte_of_string (String x a ++ b))
    with (byte_of_ascii x :: list_byte_of_string (a ++ b)).
  now rewrite IH.
Qed.

Lemma no_bar_app (a b : string) :
  ~ In Design.bar (list_byte_of_string a) ->
  ~ In Design.bar (list_byte_of_string b) ->
  ~ In Design.bar (list_byte_of_string (a ++ b)).
Proof.
  intros Ha Hb. rewrite bytes_of_app, in_app_iff. tauto.
Qed.

Lemma no_bar_uint (u : Decimal.uint) :
  ~ In Design.bar (list_byte_of_string (NilEmpty.string_of_uint u)).
Proof.
  induction u as [| u IH | u IH | u IH | u IH | u IH | u IH | u IH | u IH
                 | u IH | u IH]; cbn [NilEmpty.string_of_uint];
    [intros [] | intros [Q | Q]; [discriminate Q | exact (IH Q)] ..].
Qed.

Lemma no_bar_digits (n : Z) :
  ~ In Design.bar (list_byte_of_string (WString.digits n)).
Proof. apply no_bar_uint. Qed.

(** The text of a reading holds no separator. *)
Lemma no_bar_String_of_float (x : Q) :
  ~ In Design.bar (list_byte_of_string (WString.String_of_float x)).
Proof.
  unfold WString.String_of_float. cbv zeta.
  repeat apply no_bar_app; try apply no_bar_digits.
  - destruct (Qle_bool 0 x); cbn; [tauto | intros [Q | []]; discriminate Q].
  - cbn. intros [Q | []]. discriminate Q.
  - destruct (WString.hundredths x mod 100 <? 10)%Z; cbn;
      [intros [Q | []]; discriminate Q | tauto].
Qed.

(** The packet of [sendMessage], byte by byte. *)
Lemma sendMessage_bytes (x y z : Q) :
  ActuatorBox.sendMessage x y z
  = Byte.xcc :: Byte.xbb
    :: (list_byte_of_string (WString.String_of_float x)
        ++ Design.bar
        :: list_byte_of_string (WString.String_of_float y)
        ++ Design.bar
        :: list_byte_of_string (WString.String_of_float z))%list.
Proof.
  unfold ActuatorBox.sendMessage, LoRa.write, LoRa.print.
  change (LoRa.wire_byte ActuatorBox.destination_address) with Byte.xcc.
  change (LoRa.wire_byte ActuatorBox.local_address) with Byte.xbb.
  change (list_byte_of_string "|") with [Design.bar].
  cbn [List.app]. rewrite <- !List.app_assoc. reflexivity.
Qed.

(** C5, as the code has it.  What the actuator box sends for three
    readings, the command box takes apart into the three texts that
    [String(float)] gave: two decimal places each, so 12.0, 34.5 and 6.0
    come back as "12.00", "34.50" and "6.00". *)
Theorem sensor_round_trip :
  (forall (x y z : Q) (c : CommandBox.state),
     let c' := CommandBox.onReceive (ActuatorBox.sendMessage x y z) c in
     (CommandBox.fill_pres_str c', CommandBox.dump_pres_str c',
      CommandBox.check_pres_str c')
     = (WString.String_of_float x, WString.String_of_float y,
        WString.String_of_float z))
  /\ (forall c : CommandBox.state,
        let c' := CommandBox.onReceive
                    (ActuatorBox.sendMessage 12 (345 # 10) 6) c in
        (CommandBox.fill_pres_str c', CommandBox.dump_pres_str c',
         CommandBox.check_pres_str c')
        = ("12.00", "34.50", "6.00")).
Proof.
  assert (G : forall (x y z : Q) (c : CommandBox.state),
     let c' := CommandBox.onReceive (ActuatorBox.sendMessage x y z) c in
     (CommandBox.fill_pres_str c', CommandBox.dump_pres_str c',
      CommandBox.check_pres_str c')
     = (WString.String_of_float x, WString.String_of_float y,
        WString.String_of_float z)).
  { intros x y z c. cbv zeta. rewrite sendMessage_bytes.
    unfold CommandBox.onReceive.
    change CommandBox.local_address with (LoRa.byte_val Byte.xcc).
    change CommandBox.destination_address with (LoRa.byte_val Byte.xbb).
    rewrite address_filter_two.
    rewrite !Byte.byte_dec_lb by reflexivity. cbn [andb].
    rewrite fields_two by apply no_bar_String_of_float.
    rewrite !string_of_list_byte_of_string. reflexivity. }
  split; [exact G |].
  intros c. exact (G 12%Q (345 # 10)%Q 6%Q c).
Qed.

(** C5, as the design document words it, fails: the fields that come
    back for 12.0, 34.5 and 6.0 are not "12.0", "34.5" and "6.0". *)
Lemma one_decimal_fields_fail :
  let c' := CommandBox.onReceive
              (ActuatorBox.sendMessage 12 (345 # 10) 6) CommandBox.initial in
  (CommandBox.fill_pres_str c', CommandBox.dump_pres_str c',
   CommandBox.check_pres_str c')
  <> ("12.0", "34.5", "6.0").
Proof. vm_compute. discriminate. Qed.

(** ** Transmit timer *)

Local Open Scope Z_scope.

Lemma random_1000_bound (raw : N) : 0 <= WMath.random 1000 raw < 1000.
Proof.
  unfold WMath.random. cbn [Z.eqb].
  apply Z.rem_bound_pos; lia.
Qed.

Lemma reroll_bound (raw : N) :
  CInt.to_int (WMath.random 1000 raw + 500)
  = WMath.random 1000 raw + 500
  /\ 500 <= CInt.to_int (WMath.random 1000 raw + 500) < 1500.
Proof.
  pose proof (random_1000_bound raw) as B.
  unfold CInt.to_int. rewrite to_long_small; lia.
Qed.

Section ActuatorTimer.

Variables (e : ActuatorBox.env) (s : ActuatorBox.state).
Hypothesis running : ActuatorBox.loop_fail_once s = 0.
Hypothesis set_up : ActuatorBox.set_up_success s <> 0.

Lemma actuator_fires_iff_due :
  snd (ActuatorBox.loop e s) <> None
  <-> ActuatorBox.due (ActuatorBox.millis_test e) s = true.
Proof.
  unfold ActuatorBox.loop. rewrite running. cbn [Z.eqb negb].
  destruct (Z.eqb_spec (ActuatorBox.set_up_success s) 0) as [E |];
    [contradiction |].
  destruct (ActuatorBox.due (ActuatorBox.millis_test e) s); cbn [snd];
    split; congruence.
Qed.

Lemma actuator_idle :
  snd (ActuatorBox.loop e s) = None -> fst (ActuatorBox.loop e s) = s.
Proof.
  unfold ActuatorBox.loop. rewrite running. cbn [Z.eqb negb].
  destruct (Z.eqb_spec (ActuatorBox.set_up_success s) 0) as [E |];
    [contradiction |].
  destruct (ActuatorBox.due (ActuatorBox.millis_test e) s); cbn [snd fst];
    [discriminate | reflexivity].
Qed.

Lemma actuator_firing_effect :
  snd (ActuatorBox.loop e s) <> None ->
  ActuatorBox.last_send_time (fst (ActuatorBox.loop e s))
    = CInt.to_long (ActuatorBox.millis_stamp e)
  /\ ActuatorBox.interval (fst (ActuatorBox.loop e s))
    = WMath.random 1000 (ActuatorBox.random_raw e) + 500.
Proof.
  intros F. apply actuator_fires_iff_due in F.
  unfold ActuatorBox.loop. rewrite running. cbn [Z.eqb negb].
  destruct (Z.eqb_spec (ActuatorBox.set_up_success s) 0) as [E |];
    [contradiction |].
  rewrite F. cbn [fst].
  unfold ActuatorBox.eight_bit_code_format, ActuatorBox.LED_actuation.
  destruct (Codec.forbidden _);
    cbn; split; try reflexivity; apply reroll_bound.
Qed.

End ActuatorTimer.

Section CommandTimer.

Variables (e : CommandBox.env) (s : CommandBox.state).
Hypothesis running : CommandBox.loop_fail_once s = 0.
Hypothesis set_up : CommandBox.set_up_success s <> 0.

Lemma command_fires_iff_due :
  snd (CommandBox.loop e s) <> None
  <-> CommandBox.due (CommandBox.millis_test e) s = true.
Proof.
  unfold CommandBox.loop. rewrite running. cbn [Z.eqb negb].
  destruct (Z.eqb_spec (CommandBox.set_up_success s) 0) as [E |];
    [contradiction |].
  destruct (CommandBox.due (CommandBox.millis_test e) s); cbn [snd];
    split; congruence.
Qed.

Lemma command_idle :
  snd (CommandBox.loop e s) = None -> fst (CommandBox.loop e s) = s.
Proof.
  unfold CommandBox.loop. rewrite running. cbn [Z.eqb negb].
  destruct (Z.eqb_spec (CommandBox.set_up_success s) 0) as [E |];
    [contradiction |].
  destruct (CommandBox.due (CommandBox.millis_test e) s); cbn [snd fst];
    [discriminate | reflexivity].
Qed.

Lemma command_firing_effect :
  snd (CommandBox.loop e s) <> None ->
  CommandBox.last_send_time (fst (CommandBox.loop e s))
    = CInt.to_long (CommandBox.millis_stamp e)
  /\ CommandBox.interval (fst (CommandBox.loop e s))
    = WMath.random 1000 (CommandBox.random_raw e) + 500.
Proof.
  intros F. apply command_fires_iff_due in F.
  unfold CommandBox.loop. rewrite running. cbn [Z.eqb negb].
  destruct (Z.eqb_spec (CommandBox.set_up_success s) 0) as [E |];
    [contradiction |].
  rewrite F. cbn.
  split; try reflexivity; apply reroll_bound.
Qed.

End CommandTimer.

(** The interval stays in its band along every run. *)
Lemma actuator_interval_invariant (s : ActuatorBox.state) :
  ActuatorBox.reachable s -> 500 <= ActuatorBox.interval s < 1500.
Proof.
  induction 1 as [ok | pkt s R IH | e s R IH].
  - destruct ok; cbn; lia.
  - unfold ActuatorBox.onReceive.
    destruct (LoRa.address_filter _ _ pkt); exact IH.
  - unfold ActuatorBox.loop.
    destruct (negb (ActuatorBox.loop_fail_once s =? 0)); [exact IH |].
    destruct (ActuatorBox.set_up_success s =? 0); [exact IH |].
    destruct (ActuatorBox.due (ActuatorBox.millis_test e) s); [| exact IH].
    cbn [fst]. unfold ActuatorBox.eight_bit_code_format,
      ActuatorBox.LED_actuation.
    destruct (Codec.forbidden _); cbn; apply reroll_bound.
Qed.

Lemma command_interval_invariant (s : CommandBox.state) :
  CommandBox.reachable s -> 500 <= CommandBox.interval s < 1500.
Proof.
  induction 1 as [ok | pkt s R IH | e s R IH].
  - destruct ok; cbn; lia.
  - unfold CommandBox.onReceive.
    destruct (LoRa.address_filter _ _ pkt); [| exact IH].
    destruct (CommandBox.decodeSensors p) as [[f d] c]. exact IH.
  - unfold CommandBox.loop.
    destruct (negb (CommandBox.loop_fail_once s =? 0)); [exact IH |].
    destruct (CommandBox.set_up_success s =? 0); [exact IH |].
    destruct (CommandBox.due (CommandBox.millis_test e) s); [| exact IH].
    cbn. apply reroll_bound.
Qed.

(** C9, as the code has it.  With [setup] done, an iteration of [loop]
    sends exactly when the clock read at the test, minus [last_send_time],
    exceeds [interval] (in [unsigned long]; in plain integers while the
    clock has not wrapped).  On sending, [last_send_time] becomes the
    value of the second clock reading, the one made after the packet has
    gone out, and [interval] becomes [random(1000) + 500], an integer
    from 500 to 1499.  Along every run of either box the interval is in
    that band. *)
Theorem transmit_timer :
  (forall (e : ActuatorBox.env) (s : ActuatorBox.state),
     ActuatorBox.loop_fail_once s = 0 ->
     ActuatorBox.set_up_success s <> 0 ->
     let s' := fst (ActuatorBox.loop e s) in
     let fires := snd (ActuatorBox.loop e s) <> None in
     (fires <->
        CInt.to_ulong (ActuatorBox.interval s)
        < CInt.to_ulong (CInt.to_ulong (ActuatorBox.millis_test e)
                         - CInt.to_ulong (ActuatorBox.last_send_time s)))
     /\ (0 <= ActuatorBox.last_send_time s <= ActuatorBox.millis_test e ->
         ActuatorBox.millis_test e < 2 ^ 32 ->
         0 <= ActuatorBox.interval s < 2 ^ 32 ->
         (fires <->
            ActuatorBox.millis_test e - ActuatorBox.last_send_time s
            > ActuatorBox.interval s))
     /\ (fires ->
         ActuatorBox.last_send_time s'
           = CInt.to_long (ActuatorBox.millis_stamp e)
         /\ (0 <= ActuatorBox.millis_stamp e < 2 ^ 31 ->
             ActuatorBox.last_send_time s' = ActuatorBox.millis_stamp e)
         /\ ActuatorBox.interval s'
           = WMath.random 1000 (ActuatorBox.random_raw e) + 500
         /\ 500 <= ActuatorBox.interval s' < 1500)
     /\ (~ fires -> s' = s))
  /\ (forall (e : CommandBox.env) (s : CommandBox.state),
        CommandBox.loop_fail_once s = 0 ->
        CommandBox.set_up_success s <> 0 ->
        let s' := fst (CommandBox.loop e s) in
        let fires := snd (CommandBox.loop e s) <> None in
        (fires <->
           CInt.to_ulong (CommandBox.interval s)
           < CInt.to_ulong (CInt.to_ulong (CommandBox.millis_test e)
                            - CInt.to_ulong (CommandBox.last_send_time s)))
        /\ (0 <= CommandBox.last_send_time s <= CommandBox.millis_test e ->
            CommandBox.millis_test e < 2 ^ 32 ->
            0 <= CommandBox.interval s < 2 ^ 32 ->
            (fires <->
               CommandBox.millis_test e - CommandBox.last_send_time s
               > CommandBox.interval s))
        /\ (fires ->
            CommandBox.last_send_time s'
              = CInt.to_long (CommandBox.millis_stamp e)
            /\ (0 <= CommandBox.millis_stamp e < 2 ^ 31 ->
                CommandBox.last_send_time s' = CommandBox.millis_stamp e)
            /\ CommandBox.interval s'
              = WMath.random 1000 (CommandBox.random_raw e) + 500
            /\ 500 <= CommandBox.interval s' < 1500)
        /\ (~ fires -> s' = s))
  /\ (forall s, ActuatorBox.reachable s -> 500 <= ActuatorBox.interval s < 1500)
  /\ (forall s, CommandBox.reachable s -> 500 <= CommandBox.interval s < 1500).
Proof.
  split; [| split; [| split;
    [exact actuator_interval_invariant | exact command_interval_invariant]]].
  - intros e s R U s' fires. subst s' fires.
    pose proof (actuator_fires_iff_due e s R U) as D.
    unfold ActuatorBox.due in D. rewrite Z.gtb_ltb, Z.ltb_lt in D.
    split; [exact D | split; [| split]].
    + intros H1 H2 H3. rewrite D.
      rewrite (to_ulong_small (ActuatorBox.millis_test e)) by lia.
      rewrite (to_ulong_small (ActuatorBox.last_send_time s)) by lia.
      rewrite (to_ulong_small (ActuatorBox.interval s)) by lia.
      rewrite to_ulong_small by lia. lia.
    + intros F. destruct (actuator_firing_effect e s R U F) as [L I].
      pose proof (random_1000_bound (ActuatorBox.random_raw e)) as B.
      split; [exact L | split; [| split; [exact I | lia]]].
      intros H. rewrite L. apply to_long_small. lia.
    + intros F. apply actuator_idle; [exact R | exact U |].
      destruct (snd (ActuatorBox.loop e s)); [| reflexivity].
      exfalso. apply F. discriminate.
  - intros e s R U s' fires. subst s' fires.
    pose proof (command_fires_iff_due e s R U) as D.
    unfold CommandBox.due in D. rewrite Z.gtb_ltb, Z.ltb_lt in D.
    split; [exact D | split; [| split]].
    + intros H1 H2 H3. rewrite D.
      rewrite (to_ulong_small (CommandBox.millis_test e)) by lia.
      rewrite (to_ulong_small (CommandBox.last_send_time s)) by lia.
      rewrite (to_ulong_small (CommandBox.interval s)) by lia.
      rewrite to_ulong_small by lia. lia.
    + intros F. destruct (command_firing_effect e s R U F) as [L I].
      pose proof (random_1000_bound (CommandBox.random_raw e)) as B.
      split; [exact L | split; [| split; [exact I | lia]]].
      intros H. rewrite L. apply to_long_small. lia.
    + intros F. apply command_idle; [exact R | exact U |].
      destruct (snd (CommandBox.loop e s)); [| reflexivity].
      exfalso. apply F. discriminate.
Qed.

Lemma transmit_timer_witness :
  let e := ActuatorBox.mk_env 2000 (fun _ => 512) 2050 7 in
  let s := ActuatorBox.setup true ActuatorBox.initial in
  ActuatorBox.loop_fail_once s = 0
  /\ ActuatorBox.set_up_success s <> 0
  /\ snd (ActuatorBox.loop e s) <> None
  /\ 500 <= ActuatorBox.interval (fst (ActuatorBox.loop e s)) < 1500.
Proof.
  intros e s.
  assert (R : ActuatorBox.loop_fail_once s = 0) by reflexivity.
  assert (U : ActuatorBox.set_up_success s <> 0) by (vm_compute; discriminate).
  assert (F : snd (ActuatorBox.loop e s) <> None) by (vm_compute; discriminate).
  split; [exact R | split; [exact U | split; [exact F |]]].
  exact (proj2 (proj2 (proj2
           (proj1 (proj2 (proj2 (proj1 transmit_timer e s R U))) F)))).
Defined.

(** C9, as the design document words it, fails where it says that the
    send time becomes the time of the test: the clock reads 2000 at the
    test and 2050 once the packet is out, and 2050 is what is kept. *)
Lemma send_time_is_the_second_reading :
  let e := ActuatorBox.mk_env 2000 (fun _ => 512) 2050 7 in
  let s := ActuatorBox.setup true ActuatorBox.initial in
  snd (ActuatorBox.loop e s) <> None
  /\ ActuatorBox.millis_test e = 2000
  /\ ActuatorBox.last_send_time (fst (ActuatorBox.loop e s)) = 2050
  /\ ActuatorBox.last_send_time (fst (ActuatorBox.loop e s))
     <> ActuatorBox.millis_test e.
Proof. vm_compute. repeat split; discriminate. Qed.

(** * Further properties of the sketches *)

(** ** Codec, read from the switches to the valves *)

Lemma encode_value (fill dump check : Z) :
  0 <= fill <= 1 -> 0 <= dump <= 1 -> 0 <= check <= 1 ->
  Codec.encode fill dump check = 4 * fill + 2 * dump + check.
Proof.
  intros F D C.
  destruct (bit_cases _ F) as [-> | ->], (bit_cases _ D) as [-> | ->],
    (bit_cases _ C) as [-> | ->]; reflexivity.
Qed.

Lemma decode_encode (fill dump check : Z) :
  0 <= fill <= 1 -> 0 <= dump <= 1 -> 0 <= check <= 1 ->
  Codec.decode (Codec.encode fill dump check) = (fill, dump, check).
Proof.
  intros F D C.
  destruct (bit_cases _ F) as [-> | ->], (bit_cases _ D) as [-> | ->],
    (bit_cases _ C) as [-> | ->]; reflexivity.
Qed.

Lemma encode_unsafe_iff (fill dump check : Z) :
  0 <= fill <= 1 -> 0 <= dump <= 1 -> 0 <= check <= 1 ->
  Design.unsafe (Codec.encode fill dump check)
  <-> (fill = 1 /\ dump = 1) \/ (fill = 0 /\ check = 1).
Proof.
  intros F D C. rewrite (encode_value _ _ _ F D C).
  unfold Design.unsafe. lia.
Qed.

(** X1. For switch readings that are 0 or 1, the opcode that
    [opcode_generator] (and [command_message]) builds lies in 0..7, the
    three decode lines of [LED_actuation] give the readings back, and
    the opcode is one of 1, 3, 6, 7 exactly when fill and dump are both
    on or check is on without fill. *)
Theorem switches_survive_the_codec :
  forall fill dump check : Z,
    0 <= fill <= 1 -> 0 <= dump <= 1 -> 0 <= check <= 1 ->
    0 <= Codec.encode fill dump check <= 7
    /\ Codec.encode fill dump check = 4 * fill + 2 * dump + check
    /\ Codec.decode (Codec.encode fill dump check) = (fill, dump, check)
    /\ (Design.unsafe (Codec.encode fill dump check)
        <-> (fill = 1 /\ dump = 1) \/ (fill = 0 /\ check = 1)).
Proof.
  intros f d c F D C.
  pose proof (encode_value f d c F D C) as V.
  split; [lia |]. split; [exact V |].
  split; [exact (decode_encode f d c F D C) |].
  exact (encode_unsafe_iff f d c F D C).
Qed.

Lemma switches_survive_the_codec_witness :
  Codec.decode (Codec.encode 1 0 1) = (1, 0, 1)
  /\ ~ Design.unsafe (Codec.encode 1 0 1).
Proof.
  assert (B1 : 0 <= 1 <= 1) by lia.
  assert (B0 : 0 <= 0 <= 1) by lia.
  pose proof (switches_survive_the_codec 1 0 1 B1 B0 B1) as (_ & _ & D & U).
  split; [exact D |]. rewrite U. lia.
Defined.

(** ** The diagnostic bit string *)












(** ** The opcode link, from [sendMessage] to [onReceive] *)

Lemma to_byte_idem (z : Z) : CInt.to_byte (CInt.to_byte z) = CInt.to_byte z.
Proof. unfold CInt.to_byte. apply Z.mod_mod. lia. Qed.

Lemma to_byte_range (z : Z) : CInt.is_byte (CInt.to_byte z).
Proof. unfold CInt.is_byte, CInt.to_byte. apply Z.mod_pos_bound. lia. Qed.

Lemma byte_val_wire_any (z : Z) :
  LoRa.byte_val (LoRa.wire_byte z) = CInt.to_byte z.
Proof.
  rewrite <- (byte_val_wire (CInt.to_byte z) (to_byte_range z)).
  unfold LoRa.wire_byte. now rewrite to_byte_idem.
Qed.

Lemma command_sendMessage_bytes (code : Z) :
  CommandBox.sendMessage code = [Byte.xbb; Byte.xcc; LoRa.wire_byte code].
Proof. reflexivity. Qed.

Lemma actuator_receives_opcode (b : Byte.byte) (s : ActuatorBox.state) :
  ActuatorBox.onReceive [Byte.xbb; Byte.xcc; b] s
  = ActuatorBox.set_opcode (LoRa.byte_val b) s.
Proof.
  unfold ActuatorBox.onReceive. rewrite filter_actuator_header.
  cbn [LoRa.read fst]. now rewrite to_byte_byte_val.
Qed.

(** X3. What the command box sends for an opcode, the handler of either
    actuator box accepts, and it stores the low byte of that opcode as
    the received opcode; nothing else in the state changes. *)
Theorem opcode_crosses_the_link :
  forall (code : Z) (s : ActuatorBox.state) (u : UltrasonicBox.state),
    ActuatorBox.onReceive (CommandBox.sendMessage code) s
    = ActuatorBox.set_opcode (CInt.to_byte code) s
    /\ UltrasonicBox.onReceive (CommandBox.sendMessage code) u
       = UltrasonicBox.mk (CInt.to_byte code) (UltrasonicBox.received_code u)
                          (UltrasonicBox.pins u)
    /\ (CInt.is_byte code ->
        ActuatorBox.opcode
          (ActuatorBox.onReceive (CommandBox.sendMessage code) s) = code).
Proof.
  intros code s u. rewrite command_sendMessage_bytes.
  rewrite actuator_receives_opcode, byte_val_wire_any.
  split; [reflexivity | split].
  - unfold UltrasonicBox.onReceive.
    change (LoRa.address_filter UltrasonicBox.local_address
              UltrasonicBox.destination_address
              [Byte.xbb; Byte.xcc; LoRa.wire_byte code])
      with (Some [LoRa.wire_byte code]).
    cbn [LoRa.read fst]. now rewrite byte_val_wire_any, to_byte_idem.
  - intros H. cbn. now apply to_byte_small.
Qed.

Lemma opcode_crosses_the_link_witness :
  ActuatorBox.opcode
    (ActuatorBox.onReceive (CommandBox.sendMessage 5) ActuatorBox.initial) = 5.
Proof.
  assert (B : CInt.is_byte 5) by (unfold CInt.is_byte; lia).
  exact (proj2 (proj2 (opcode_crosses_the_link 5 ActuatorBox.initial
                         UltrasonicBox.initial)) B).
Defined.

(** ** A box does not hear itself *)

Lemma ultrasonic_sendMessage_bytes (data : string) :
  UltrasonicBox.sendMessage data
  = Byte.xcc :: Byte.xbb :: list_byte_of_string data.
Proof. reflexivity. Qed.

Lemma header_mismatch (a b c d : Byte.byte) (rest : LoRa.packet) :
  a <> c -> ~ LoRa.has_header c d (a :: b :: rest).
Proof.
  intros N (_ & H & _). cbn in H. injection H as H. contradiction.
Qed.

(** X4. No box takes its own transmission for a packet from its peer:
    the handler of a box, given a packet that the same box sent, returns
    with the state unchanged (the header it writes is the mirror image
    of the one it accepts). *)
Theorem own_packets_are_rejected :
  (forall (x y z : Q) (s : ActuatorBox.state),
     ActuatorBox.onReceive (ActuatorBox.sendMessage x y z) s = s)
  /\ (forall (data : string) (u : UltrasonicBox.state),
        UltrasonicBox.onReceive (UltrasonicBox.sendMessage data) u = u)
  /\ (forall (code : Z) (c : CommandBox.state),
        CommandBox.onReceive (CommandBox.sendMessage code) c = c).
Proof.
  split; [| split].
  - intros x y z s. rewrite sendMessage_bytes.
    apply actuator_onReceive_rejects, header_mismatch. discriminate.
  - intros data u. rewrite ultrasonic_sendMessage_bytes.
    apply ultrasonic_onReceive_rejects, header_mismatch. discriminate.
  - intros code c. rewrite command_sendMessage_bytes.
    apply command_onReceive_rejects, header_mismatch. discriminate.
Qed.

(** ** What an iteration of [loop] does to the valves *)

Section ActuatorFiring.

Variables (e : ActuatorBox.env) (s : ActuatorBox.state).
Hypothesis running : ActuatorBox.loop_fail_once s = 0.
Hypothesis set_up : ActuatorBox.set_up_success s <> 0.
Hypothesis due : ActuatorBox.due (ActuatorBox.millis_test e) s = true.

Lemma firing_latch :
  ActuatorBox.rcv_opcode (fst (ActuatorBox.loop e s))
  = if Codec.forbidden (ActuatorBox.opcode s)
    then ActuatorBox.rcv_opcode s else ActuatorBox.opcode s.
Proof.
  unfold ActuatorBox.loop. rewrite running. cbn [Z.eqb negb].
  destruct (Z.eqb_spec (ActuatorBox.set_up_success s) 0) as [E |];
    [contradiction |].
  rewrite due. cbn [fst].
  unfold ActuatorBox.eight_bit_code_format, ActuatorBox.LED_actuation.
  cbn [ActuatorBox.opcode ActuatorBox.set_interval
       ActuatorBox.set_last_send_time ActuatorBox.set_pres].
  destruct (Codec.forbidden (ActuatorBox.opcode s)); reflexivity.
Qed.

Lemma firing_pins :
  ActuatorBox.pins (fst (ActuatorBox.loop e s))
  = ActuatorBox.pins (ActuatorBox.LED_actuation (ActuatorBox.opcode s) s).
Proof.
  unfold ActuatorBox.loop. rewrite running. cbn [Z.eqb negb].
  destruct (Z.eqb_spec (ActuatorBox.set_up_success s) 0) as [E |];
    [contradiction |].
  rewrite due. cbn [fst].
  unfold ActuatorBox.eight_bit_code_format, ActuatorBox.LED_actuation.
  cbn [ActuatorBox.opcode ActuatorBox.set_interval
       ActuatorBox.set_last_send_time ActuatorBox.set_pres].
  destruct (Codec.forbidden (ActuatorBox.opcode s)); reflexivity.
Qed.

Lemma firing_opcode :
  ActuatorBox.opcode (fst (ActuatorBox.loop e s)) = ActuatorBox.opcode s.
Proof.
  unfold ActuatorBox.loop. rewrite running. cbn [Z.eqb negb].
  destruct (Z.eqb_spec (ActuatorBox.set_up_success s) 0) as [E |];
    [contradiction |].
  rewrite due. cbn [fst].
  unfold ActuatorBox.eight_bit_code_format, ActuatorBox.LED_actuation.
  cbn [ActuatorBox.opcode ActuatorBox.set_interval
       ActuatorBox.set_last_send_time ActuatorBox.set_pres].
  destruct (Codec.forbidden (ActuatorBox.opcode s)); reflexivity.
Qed.

End ActuatorFiring.

Lemma command_loop_packet (e : CommandBox.env) (c : CommandBox.state)
    (pkt : LoRa.packet) :
  snd (CommandBox.loop e c) = Some pkt ->
  pkt = CommandBox.sendMessage (CommandBox.opcode_generator e).
Proof.
  unfold CommandBox.loop.
  destruct (negb (CommandBox.loop_fail_once c =? 0)); [discriminate |].
  destruct (CommandBox.set_up_success c =? 0); [discriminate |].
  destruct (CommandBox.due (CommandBox.millis_test e) c); [| discriminate].
  cbn. congruence.
Qed.

Lemma encode_byte (f d c : Z) : CInt.is_byte (Codec.encode f d c).
Proof. unfold Codec.encode. apply to_byte_range. Qed.

(** X5. From the switches to the valves.  The command box sends in an
    iteration of its [loop] with switch readings that are 0 or 1; the
    actuator box receives that packet and then comes to a transmit turn.
    If the switch combination is a safe one, the latch holds its code
    and the three outputs equal the three switches; if it is one of the
    unsafe ones, the latch keeps its value and the outputs show the
    bits of that value. *)
Theorem switches_reach_the_valves :
  forall (ec : CommandBox.env) (c : CommandBox.state) (pkt : LoRa.packet)
         (ea : ActuatorBox.env) (a : ActuatorBox.state),
    0 <= CommandBox.digitalRead ec CommandBox.FILL_SW <= 1 ->
    0 <= CommandBox.digitalRead ec CommandBox.DUMP_SW <= 1 ->
    0 <= CommandBox.digitalRead ec CommandBox.CHECK_SW <= 1 ->
    snd (CommandBox.loop ec c) = Some pkt ->
    ActuatorBox.loop_fail_once a = 0 ->
    ActuatorBox.set_up_success a <> 0 ->
    ActuatorBox.due (ActuatorBox.millis_test ea) a = true ->
    let fill := CommandBox.digitalRead ec CommandBox.FILL_SW in
    let dump := CommandBox.digitalRead ec CommandBox.DUMP_SW in
    let check := CommandBox.digitalRead ec CommandBox.CHECK_SW in
    let a' := fst (ActuatorBox.loop ea (ActuatorBox.onReceive pkt a)) in
    (~ ((fill = 1 /\ dump = 1) \/ (fill = 0 /\ check = 1)) ->
       ActuatorBox.rcv_opcode a' = 4 * fill + 2 * dump + check
       /\ ActuatorBox.pins a' ActuatorBox.FILL_COMND = fill
       /\ ActuatorBox.pins a' ActuatorBox.DUMP_COMND = dump
       /\ ActuatorBox.pins a' ActuatorBox.CHECK_COMND = check)
    /\ ((fill = 1 /\ dump = 1) \/ (fill = 0 /\ check = 1) ->
       ActuatorBox.rcv_opcode a' = ActuatorBox.rcv_opcode a
       /\ ActuatorBox.pins a' ActuatorBox.FILL_COMND
          = Z.land (Z.shiftr (ActuatorBox.rcv_opcode a) 2) 1
       /\ ActuatorBox.pins a' ActuatorBox.DUMP_COMND
          = Z.land (Z.shiftr (ActuatorBox.rcv_opcode a) 1) 1
       /\ ActuatorBox.pins a' ActuatorBox.CHECK_COMND
          = Z.land (ActuatorBox.rcv_opcode a) 1).
Proof.
  intros ec c pkt ea a F D C S R U T fill dump check a'.
  apply command_loop_packet in S. subst pkt.
  pose proof (encode_value fill dump check F D C) as Ev.
  pose proof (decode_encode fill dump check F D C) as De.
  pose proof (encode_unsafe_iff fill dump check F D C) as Un.
  assert (A1 : ActuatorBox.onReceive
                 (CommandBox.sendMessage (CommandBox.opcode_generator ec)) a
               = ActuatorBox.set_opcode (Codec.encode fill dump check) a).
  { rewrite command_sendMessage_bytes, actuator_receives_opcode,
      byte_val_wire_any.
    unfold CommandBox.opcode_generator.
    change (CommandBox.digitalRead ec CommandBox.FILL_SW) with fill.
    change (CommandBox.digitalRead ec CommandBox.DUMP_SW) with dump.
    change (CommandBox.digitalRead ec CommandBox.CHECK_SW) with check.
    now rewrite (to_byte_small _ (encode_byte fill dump check)). }
  subst a'. rewrite A1.
  set (a1 := ActuatorBox.set_opcode (Codec.encode fill dump check) a).
  assert (R1 : ActuatorBox.loop_fail_once a1 = 0) by exact R.
  assert (U1 : ActuatorBox.set_up_success a1 <> 0) by exact U.
  assert (T1 : ActuatorBox.due (ActuatorBox.millis_test ea) a1 = true)
    by exact T.
  pose proof (firing_latch ea a1 R1 U1 T1) as L.
  pose proof (firing_pins ea a1 R1 U1 T1) as P.
  pose proof (LED_actuation_pins (ActuatorBox.opcode a1) a1) as Q.
  cbv zeta in Q. rewrite <- P in Q.
  rewrite LED_actuation_latch in Q.
  change (ActuatorBox.opcode a1) with (Codec.encode fill dump check) in *.
  change (ActuatorBox.rcv_opcode a1) with (ActuatorBox.rcv_opcode a) in *.
  split; intros H.
  - assert (E : Codec.forbidden (Codec.encode fill dump check) = false)
      by (apply forbidden_safe; rewrite Un; exact H).
    rewrite E in L, Q. rewrite L. split; [exact Ev |].
    pose proof (decode_bits (Codec.encode fill dump check)) as DB.
    rewrite De in DB. injection DB as D1 D2 D3.
    destruct Q as (Q1 & Q2 & Q3). repeat split; congruence.
  - assert (E : Codec.forbidden (Codec.encode fill dump check) = true)
      by (apply forbidden_unsafe; rewrite Un; exact H).
    rewrite E in L, Q. rewrite L. split; [reflexivity | exact Q].
Qed.

Lemma switches_reach_the_valves_witness :
  let ec := CommandBox.mk_env 2000
              (fun pin => if pin =? 5 then 0 else 1) 2050 7 in
  let c := CommandBox.setup true CommandBox.initial in
  let ea := ActuatorBox.mk_env 3000 (fun _ => 512) 3050 9 in
  let a := ActuatorBox.setup true ActuatorBox.initial in
  let a' := fst (ActuatorBox.loop ea
                   (ActuatorBox.onReceive (CommandBox.sendMessage 5) a)) in
  snd (CommandBox.loop ec c) = Some (CommandBox.sendMessage 5)
  /\ ActuatorBox.rcv_opcode a' = 5
  /\ ActuatorBox.pins a' ActuatorBox.FILL_COMND = 1
  /\ ActuatorBox.pins a' ActuatorBox.DUMP_COMND = 0
  /\ ActuatorBox.pins a' ActuatorBox.CHECK_COMND = 1.
Proof.
  intros ec c ea a a'.
  assert (S : snd (CommandBox.loop ec c) = Some (CommandBox.sendMessage 5))
    by reflexivity.
  split; [exact S |].
  assert (F : 0 <= CommandBox.digitalRead ec CommandBox.FILL_SW <= 1)
    by (simpl; lia).
  assert (D : 0 <= CommandBox.digitalRead ec CommandBox.DUMP_SW <= 1)
    by (simpl; lia).
  assert (C : 0 <= CommandBox.digitalRead ec CommandBox.CHECK_SW <= 1)
    by (simpl; lia).
  assert (R : ActuatorBox.loop_fail_once a = 0) by reflexivity.
  assert (U : ActuatorBox.set_up_success a <> 0) by (simpl; lia).
  assert (T : ActuatorBox.due (ActuatorBox.millis_test ea) a = true)
    by reflexivity.
  assert (N : ~ ((CommandBox.digitalRead ec CommandBox.FILL_SW = 1
                  /\ CommandBox.digitalRead ec CommandBox.DUMP_SW = 1)
                 \/ (CommandBox.digitalRead ec CommandBox.FILL_SW = 0
                     /\ CommandBox.digitalRead ec CommandBox.CHECK_SW = 1)))
    by (simpl; lia).
  exact (proj1 (switches_reach_the_valves ec c (CommandBox.sendMessage 5)
                  ea a F D C S R U T) N).
Defined.

(** ** When the valves can move *)

Lemma onReceive_frame (pkt : LoRa.packet) (s : ActuatorBox.state) :
  ActuatorBox.rcv_opcode (ActuatorBox.onReceive pkt s)
    = ActuatorBox.rcv_opcode s
  /\ ActuatorBox.pins (ActuatorBox.onReceive pkt s) = ActuatorBox.pins s
  /\ ActuatorBox.last_send_time (ActuatorBox.onReceive pkt s)
     = ActuatorBox.last_send_time s
  /\ ActuatorBox.interval (ActuatorBox.onReceive pkt s)
     = ActuatorBox.interval s
  /\ ActuatorBox.set_up_success (ActuatorBox.onReceive pkt s)
     = ActuatorBox.set_up_success s
  /\ ActuatorBox.loop_fail_once (ActuatorBox.onReceive pkt s)
     = ActuatorBox.loop_fail_once s.
Proof.
  unfold ActuatorBox.onReceive.
  destruct (LoRa.address_filter _ _ pkt); repeat split.
Qed.

Lemma silent_loop_frame (e : ActuatorBox.env) (s : ActuatorBox.state) :
  snd (ActuatorBox.loop e s) = None ->
  ActuatorBox.rcv_opcode (fst (ActuatorBox.loop e s))
    = ActuatorBox.rcv_opcode s
  /\ ActuatorBox.pins (fst (ActuatorBox.loop e s)) = ActuatorBox.pins s
  /\ ActuatorBox.opcode (fst (ActuatorBox.loop e s)) = ActuatorBox.opcode s.
Proof.
  unfold ActuatorBox.loop.
  destruct (negb (ActuatorBox.loop_fail_once s =? 0)); [repeat split |].
  destruct (ActuatorBox.set_up_success s =? 0); [repeat split |].
  destruct (ActuatorBox.due (ActuatorBox.millis_test e) s);
    [discriminate | repeat split].
Qed.

(** X6. The valves move only in an iteration of [loop] that also sends
    a packet.  The receive callback and every iteration that sends
    nothing (interval not yet over, or [setup] failed) leave the latch
    and all output pins as they were; so a received opcode waits for
    the next transmit turn before it is applied. *)
Theorem valves_move_only_when_sending :
  forall (ev : ActuatorRun.event) (s : ActuatorBox.state),
    snd (ActuatorRun.step ev s) = None ->
    ActuatorBox.rcv_opcode (fst (ActuatorRun.step ev s))
      = ActuatorBox.rcv_opcode s
    /\ ActuatorBox.pins (fst (ActuatorRun.step ev s)) = ActuatorBox.pins s.
Proof.
  intros [pkt | e] s H; cbn [ActuatorRun.step fst snd] in *.
  - destruct (onReceive_frame pkt s) as (A & B & _). auto.
  - destruct (silent_loop_frame e s H) as (A & B & _). auto.
Qed.

Lemma valves_move_only_when_sending_witness :
  ActuatorBox.pins
    (fst (ActuatorRun.step
            (ActuatorRun.Receive (CommandBox.sendMessage 5))
            ActuatorBox.initial))
  = ActuatorBox.pins ActuatorBox.initial.
Proof.
  exact (proj2 (valves_move_only_when_sending
                  (ActuatorRun.Receive (CommandBox.sendMessage 5))
                  ActuatorBox.initial eq_refl)).
Defined.

(** ** The output pins along a run *)

Lemma LED_actuation_other_pins (code pin : Z) (s : ActuatorBox.state) :
  pin <> ActuatorBox.FILL_COMND -> pin <> ActuatorBox.DUMP_COMND ->
  pin <> ActuatorBox.CHECK_COMND ->
  ActuatorBox.pins (ActuatorBox.LED_actuation code s) pin
  = ActuatorBox.pins s pin.
Proof.
  intros F D C. unfold ActuatorBox.LED_actuation, Codec.decode.
  destruct (Codec.forbidden code);
    cbn [ActuatorBox.pins ActuatorBox.set_pins ActuatorBox.set_rcv_opcode];
    unfold Pins.digitalWrite;
    destruct (Z.eqb_spec pin ActuatorBox.CHECK_COMND); try contradiction;
    destruct (Z.eqb_spec pin ActuatorBox.DUMP_COMND); try contradiction;
    destruct (Z.eqb_spec pin ActuatorBox.FILL_COMND); try contradiction;
    reflexivity.
Qed.

Lemma LED_actuation_follows (code : Z) (s : ActuatorBox.state) :
  ActuatorRun.pins_follow_latch s ->
  ActuatorRun.pins_follow_latch (ActuatorBox.LED_actuation code s).
Proof.
  intros (_ & _ & _ & O).
  destruct (LED_actuation_pins code s) as (A & B & C).
  unfold ActuatorRun.pins_follow_latch. repeat split; auto.
  intros pin F D K. rewrite LED_actuation_other_pins by assumption. auto.
Qed.

Lemma follows_transfer (s t : ActuatorBox.state) :
  ActuatorBox.rcv_opcode t = ActuatorBox.rcv_opcode s ->
  ActuatorBox.pins t = ActuatorBox.pins s ->
  ActuatorRun.pins_follow_latch s -> ActuatorRun.pins_follow_latch t.
Proof.
  unfold ActuatorRun.pins_follow_latch. intros -> ->. auto.
Qed.

Lemma step_follows (ev : ActuatorRun.event) (s : ActuatorBox.state) :
  ActuatorRun.pins_follow_latch s ->
  ActuatorRun.pins_follow_latch (fst (ActuatorRun.step ev s)).
Proof.
  intros H. destruct ev as [pkt | e]; cbn [ActuatorRun.step fst].
  - destruct (onReceive_frame pkt s) as (A & B & _).
    exact (follows_transfer _ _ A B H).
  - unfold ActuatorBox.loop.
    destruct (negb (ActuatorBox.loop_fail_once s =? 0)); [exact H |].
    destruct (ActuatorBox.set_up_success s =? 0); [exact H |].
    destruct (ActuatorBox.due (ActuatorBox.millis_test e) s); [| exact H].
    cbn [fst]. unfold ActuatorBox.eight_bit_code_format.
    apply (follows_transfer
             (ActuatorBox.LED_actuation (ActuatorBox.opcode s) s)).
    + unfold ActuatorBox.LED_actuation.
      cbn [ActuatorBox.opcode ActuatorBox.set_interval
           ActuatorBox.set_last_send_time ActuatorBox.set_pres].
      destruct (Codec.forbidden (ActuatorBox.opcode s)); reflexivity.
    + unfold ActuatorBox.LED_actuation.
      cbn [ActuatorBox.opcode ActuatorBox.set_interval
           ActuatorBox.set_last_send_time ActuatorBox.set_pres].
      destruct (Codec.forbidden (ActuatorBox.opcode s)); reflexivity.
    + apply LED_actuation_follows, H.
Qed.

Lemma trace_cons (ev : ActuatorRun.event) (evs : list ActuatorRun.event)
    (s : ActuatorBox.state) :
  fst (ActuatorRun.trace (ev :: evs) s)
  = fst (ActuatorRun.trace evs (fst (ActuatorRun.step ev s))).
Proof.
  cbn [ActuatorRun.trace].
  destruct (ActuatorRun.step ev s) as [s1 sent]. cbn [fst].
  destruct (ActuatorRun.trace evs s1) as [s2 later]. reflexivity.
Qed.

(** An invariant of the steps permitted by [G] holds along every run of
    such steps. *)
Lemma trace_invariant (P : ActuatorBox.state -> Prop)
    (G : ActuatorRun.event -> Prop) :
  (forall ev s, G ev -> P s -> P (fst (ActuatorRun.step ev s))) ->
  forall evs s, Forall G evs -> P s -> P (fst (ActuatorRun.trace evs s)).
Proof.
  intros Step evs. induction evs as [| ev evs IH]; intros s Hg Hp.
  - exact Hp.
  - rewrite trace_cons. inversion Hg; subst.
    apply IH; [assumption |]. now apply Step.
Qed.

Lemma Forall_True {A : Type} (l : list A) : Forall (fun _ => True) l.
Proof. induction l; constructor; auto. Qed.

(** X7. Along every run of the actuator box (callbacks and iterations
    of [loop] in any order, after [setup] succeeded or failed) the fill,
    dump and check outputs carry bits 2, 1 and 0 of the latched code. *)
Theorem outputs_follow_the_latch :
  forall (ok : bool) (evs : list ActuatorRun.event),
    let s := fst (ActuatorRun.trace evs
                    (ActuatorBox.setup ok ActuatorBox.initial)) in
    ActuatorBox.pins s ActuatorBox.FILL_COMND
      = Z.land (Z.shiftr (ActuatorBox.rcv_opcode s) 2) 1
    /\ ActuatorBox.pins s ActuatorBox.DUMP_COMND
      = Z.land (Z.shiftr (ActuatorBox.rcv_opcode s) 1) 1
    /\ ActuatorBox.pins s ActuatorBox.CHECK_COMND
      = Z.land (ActuatorBox.rcv_opcode s) 1.
Proof.
  intros ok evs.
  assert (H : ActuatorRun.pins_follow_latch
                (fst (ActuatorRun.trace evs
                        (ActuatorBox.setup ok ActuatorBox.initial)))).
  { apply (trace_invariant ActuatorRun.pins_follow_latch (fun _ => True)).
    - intros ev s _. apply step_follows.
    - apply Forall_True.
    - destruct ok; repeat split. }
  destruct H as (F & D & C & _). cbv zeta. auto.
Qed.




(** ** Safety of the valves when every opcode on the air is in range *)





(** ** [setup] decides once and for all whether a box runs *)

Lemma actuator_trace_step (ev : ActuatorRun.event)
    (evs : list ActuatorRun.event) (s : ActuatorBox.state) :
  ActuatorRun.trace (ev :: evs) s
  = (fst (ActuatorRun.trace evs (fst (ActuatorRun.step ev s))),
     match snd (ActuatorRun.step ev s) with
     | Some p => p :: snd (ActuatorRun.trace evs (fst (ActuatorRun.step ev s)))
     | None => snd (ActuatorRun.trace evs (fst (ActuatorRun.step ev s)))
     end).
Proof.
  cbn [ActuatorRun.trace].
  destruct (ActuatorRun.step ev s) as [s1 sent]. cbn [fst snd].
  destruct (ActuatorRun.trace evs s1) as [s2 later]. reflexivity.
Qed.

Lemma command_trace_step (ev : CommandRun.event)
    (evs : list CommandRun.event) (s : CommandBox.state) :
  CommandRun.trace (ev :: evs) s
  = (fst (CommandRun.trace evs (fst (CommandRun.step ev s))),
     match snd (CommandRun.step ev s) with
     | Some p => p :: snd (CommandRun.trace evs (fst (CommandRun.step ev s)))
     | None => snd (CommandRun.trace evs (fst (CommandRun.step ev s)))
     end).
Proof.
  cbn [CommandRun.trace].
  destruct (CommandRun.step ev s) as [s1 sent]. cbn [fst snd].
  destruct (CommandRun.trace evs s1) as [s2 later]. reflexivity.
Qed.

Lemma command_onReceive_frame (pkt : LoRa.packet) (s : CommandBox.state) :
  CommandBox.opcode (CommandBox.onReceive pkt s) = CommandBox.opcode s
  /\ CommandBox.last_send_time (CommandBox.onReceive pkt s)
     = CommandBox.last_send_time s
  /\ CommandBox.interval (CommandBox.onReceive pkt s) = CommandBox.interval s
  /\ CommandBox.set_up_success (CommandBox.onReceive pkt s)
     = CommandBox.set_up_success s
  /\ CommandBox.loop_fail_once (CommandBox.onReceive pkt s)
     = CommandBox.loop_fail_once s.
Proof.
  unfold CommandBox.onReceive.
  destruct (LoRa.address_filter _ _ pkt) as [fifo |]; [| repeat split].
  destruct (CommandBox.decodeSensors fifo) as [[f d] c]. repeat split.
Qed.

Lemma actuator_stopped_step (ev : ActuatorRun.event)
    (s : ActuatorBox.state) :
  ActuatorBox.set_up_success s = 0 ->
  let s' := fst (ActuatorRun.step ev s) in
  snd (ActuatorRun.step ev s) = None
  /\ ActuatorBox.set_up_success s' = 0
  /\ ActuatorBox.rcv_opcode s' = ActuatorBox.rcv_opcode s
  /\ ActuatorBox.pins s' = ActuatorBox.pins s
  /\ ActuatorBox.last_send_time s' = ActuatorBox.last_send_time s.
Proof.
  intros Z0. destruct ev as [pkt | e]; cbn [ActuatorRun.step fst snd].
  - destruct (onReceive_frame pkt s) as (A & B & C & _ & D & _).
    rewrite D. auto.
  - unfold ActuatorBox.loop.
    destruct (negb (ActuatorBox.loop_fail_once s =? 0)); [cbn; auto |].
    rewrite Z0. cbn. auto.
Qed.

Lemma command_stopped_step (ev : CommandRun.event) (s : CommandBox.state) :
  CommandBox.set_up_success s = 0 ->
  let s' := fst (CommandRun.step ev s) in
  snd (CommandRun.step ev s) = None
  /\ CommandBox.set_up_success s' = 0
  /\ CommandBox.opcode s' = CommandBox.opcode s.
Proof.
  intros Z0. destruct ev as [pkt | e]; cbn [CommandRun.step fst snd].
  - destruct (command_onReceive_frame pkt s) as (A & _ & _ & D & _).
    rewrite D. auto.
  - unfold CommandBox.loop.
    destruct (negb (CommandBox.loop_fail_once s =? 0)); [cbn; auto |].
    rewrite Z0. cbn. auto.
Qed.

Lemma actuator_stopped_trace (evs : list ActuatorRun.event) :
  forall s,
    ActuatorBox.set_up_success s = 0 ->
    snd (ActuatorRun.trace evs s) = []
    /\ ActuatorBox.rcv_opcode (fst (ActuatorRun.trace evs s))
       = ActuatorBox.rcv_opcode s
    /\ ActuatorBox.pins (fst (ActuatorRun.trace evs s)) = ActuatorBox.pins s
    /\ ActuatorBox.last_send_time (fst (ActuatorRun.trace evs s))
       = ActuatorBox.last_send_time s.
Proof.
  induction evs as [| ev evs IH]; intros s Z0; [repeat split |].
  rewrite actuator_trace_step. cbn [fst snd].
  destruct (actuator_stopped_step ev s Z0) as (N & Z1 & R & P & L).
  destruct (IH _ Z1) as (N' & R' & P' & L').
  rewrite N, N', R', P', L'. auto.
Qed.

Lemma command_stopped_trace (evs : list CommandRun.event) :
  forall s,
    CommandBox.set_up_success s = 0 ->
    snd (CommandRun.trace evs s) = []
    /\ CommandBox.opcode (fst (CommandRun.trace evs s)) = CommandBox.opcode s.
Proof.
  induction evs as [| ev evs IH]; intros s Z0; [repeat split |].
  rewrite command_trace_step. cbn [fst snd].
  destruct (command_stopped_step ev s Z0) as (N & Z1 & O).
  destruct (IH _ Z1) as (N' & O').
  rewrite N, N', O'. auto.
Qed.

(** X9. Fail-stop.  When [LoRa.begin] fails in [setup], a box never
    sends a packet, whatever happens later; the actuator box keeps its
    latch at 0 and all outputs low, the command box never reads its
    switches into [opcode]. *)
Theorem failed_setup_stops_the_box :
  (forall evs : list ActuatorRun.event,
     let r := ActuatorRun.trace evs
                (ActuatorBox.setup false ActuatorBox.initial) in
     snd r = []
     /\ ActuatorBox.rcv_opcode (fst r) = 0
     /\ ActuatorBox.pins (fst r) = Pins.all_low
     /\ ActuatorBox.last_send_time (fst r) = 0)
  /\ (forall evs : list CommandRun.event,
        let r := CommandRun.trace evs
                   (CommandBox.setup false CommandBox.initial) in
        snd r = [] /\ CommandBox.opcode (fst r) = 0).
Proof.
  split; intros evs r; subst r.
  - exact (actuator_stopped_trace evs
             (ActuatorBox.setup false ActuatorBox.initial) eq_refl).
  - exact (command_stopped_trace evs
             (CommandBox.setup false CommandBox.initial) eq_refl).
Qed.

Lemma actuator_running_step (ev : ActuatorRun.event)
    (s : ActuatorBox.state) :
  ActuatorBox.set_up_success s = 1 /\ ActuatorBox.loop_fail_once s = 0 ->
  ActuatorBox.set_up_success (fst (ActuatorRun.step ev s)) = 1
  /\ ActuatorBox.loop_fail_once (fst (ActuatorRun.step ev s)) = 0.
Proof.
  intros (U & R). destruct ev as [pkt | e]; cbn [ActuatorRun.step fst].
  - destruct (onReceive_frame pkt s) as (_ & _ & _ & _ & A & B).
    rewrite A, B. auto.
  - unfold ActuatorBox.loop. rewrite R, U. cbn [Z.eqb negb Pos.eqb].
    destruct (ActuatorBox.due (ActuatorBox.millis_test e) s); [| auto].
    cbn [fst]. unfold ActuatorBox.eight_bit_code_format,
      ActuatorBox.LED_actuation.
    destruct (Codec.forbidden _); cbn; auto.
Qed.

Lemma command_running_step (ev : CommandRun.event) (s : CommandBox.state) :
  CommandBox.set_up_success s = 1 /\ CommandBox.loop_fail_once s = 0 ->
  CommandBox.set_up_success (fst (CommandRun.step ev s)) = 1
  /\ CommandBox.loop_fail_once (fst (CommandRun.step ev s)) = 0.
Proof.
  intros (U & R). destruct ev as [pkt | e]; cbn [CommandRun.step fst].
  - destruct (command_onReceive_frame pkt s) as (_ & _ & _ & A & B).
    rewrite A, B. auto.
  - unfold CommandBox.loop. rewrite R, U. cbn [Z.eqb negb Pos.eqb].
    destruct (CommandBox.due (CommandBox.millis_test e) s); cbn; auto.
Qed.

Lemma command_running_trace (evs : list CommandRun.event) :
  forall s,
    CommandBox.set_up_success s = 1 /\ CommandBox.loop_fail_once s = 0 ->
    CommandBox.set_up_success (fst (CommandRun.trace evs s)) = 1
    /\ CommandBox.loop_fail_once (fst (CommandRun.trace evs s)) = 0.
Proof.
  induction evs as [| ev evs IH]; intros s H; [exact H |].
  rewrite command_trace_step. cbn [fst].
  apply IH, command_running_step, H.
Qed.

(** X10. Once [setup] has succeeded a box never stops: along every run
    [set_up_success] stays 1 and [loop_fail_once] stays 0, so that every
    later iteration of [loop] sends exactly when its timer test
    holds. *)
Theorem good_setup_keeps_the_box_running :
  (forall (evs : list ActuatorRun.event) (e : ActuatorBox.env),
     let s := fst (ActuatorRun.trace evs
                     (ActuatorBox.setup true ActuatorBox.initial)) in
     ActuatorBox.set_up_success s = 1
     /\ ActuatorBox.loop_fail_once s = 0
     /\ (snd (ActuatorBox.loop e s) <> None
         <-> ActuatorBox.due (ActuatorBox.millis_test e) s = true))
  /\ (forall (evs : list CommandRun.event) (e : CommandBox.env),
        let s := fst (CommandRun.trace evs
                        (CommandBox.setup true CommandBox.initial)) in
        CommandBox.set_up_success s = 1
        /\ CommandBox.loop_fail_once s = 0
        /\ (snd (CommandBox.loop e s) <> None
            <-> CommandBox.due (CommandBox.millis_test e) s = true)).
Proof.
  split; intros evs e s.
  - assert (H : ActuatorBox.set_up_success s = 1
                /\ ActuatorBox.loop_fail_once s = 0).
    { apply (trace_invariant
               (fun s => ActuatorBox.set_up_success s = 1
                         /\ ActuatorBox.loop_fail_once s = 0)
               (fun _ => True)).
      - intros ev t _. apply actuator_running_step.
      - apply Forall_True.
      - split; reflexivity. }
    destruct H as (U & R). split; [exact U | split; [exact R |]].
    apply actuator_fires_iff_due; [exact R | rewrite U; discriminate].
  - assert (H : CommandBox.set_up_success s = 1
                /\ CommandBox.loop_fail_once s = 0).
    { apply command_running_trace. split; reflexivity. }
    destruct H as (U & R). split; [exact U | split; [exact R |]].
    apply command_fires_iff_due; [exact R | rewrite U; discriminate].
Qed.

(** ** The timer between two sends *)

(** The elapsed time that the timer test computes from a stored stamp:
    the difference of the two clock readings modulo 2^32, whatever the
    conversions to [long] and back did to the stamp. *)
Lemma elapsed_mod (now stamp : Z) :
  CInt.to_ulong (CInt.to_ulong now - CInt.to_ulong (CInt.to_long stamp))
  = (now - stamp) mod 2 ^ 32.
Proof.
  unfold CInt.to_ulong, CInt.to_long.
  rewrite Zminus_mod_idemp_l, Zminus_mod_idemp_r.
  rewrite <- (Zminus_mod_idemp_r now ((stamp + 2 ^ 31) mod 2 ^ 32 - 2 ^ 31)).
  rewrite Zminus_mod_idemp_l.
  rewrite Zminus_mod_idemp_r.
  f_equal. lia.
Qed.

Lemma actuator_loop_flags (e : ActuatorBox.env) (s : ActuatorBox.state) :
  ActuatorBox.loop_fail_once s = 0 ->
  ActuatorBox.set_up_success s <> 0 ->
  ActuatorBox.loop_fail_once (fst (ActuatorBox.loop e s)) = 0
  /\ ActuatorBox.set_up_success (fst (ActuatorBox.loop e s))
     = ActuatorBox.set_up_success s.
Proof.
  intros R U. unfold ActuatorBox.loop. rewrite R. cbn [Z.eqb negb].
  destruct (Z.eqb_spec (ActuatorBox.set_up_success s) 0) as [E |];
    [contradiction |].
  destruct (ActuatorBox.due (ActuatorBox.millis_test e) s); [| auto].
  cbn [fst]. unfold ActuatorBox.eight_bit_code_format,
    ActuatorBox.LED_actuation.
  destruct (Codec.forbidden _); cbn; auto.
Qed.

Lemma command_loop_flags (e : CommandBox.env) (s : CommandBox.state) :
  CommandBox.loop_fail_once s = 0 ->
  CommandBox.set_up_success s <> 0 ->
  CommandBox.loop_fail_once (fst (CommandBox.loop e s)) = 0
  /\ CommandBox.set_up_success (fst (CommandBox.loop e s))
     = CommandBox.set_up_success s.
Proof.
  intros R U. unfold CommandBox.loop. rewrite R. cbn [Z.eqb negb].
  destruct (Z.eqb_spec (CommandBox.set_up_success s) 0) as [E |];
    [contradiction |].
  destruct (CommandBox.due (CommandBox.millis_test e) s); cbn; auto.
Qed.

(** X11. Spacing of the sends.  After an iteration that sent, with the
    clock reading [stamp] stored, a later iteration at clock reading
    [now] sends exactly when the new interval is less than
    [(now - stamp) mod 2^32]: it never sends while that gap is at most
    500 ms and always sends once the gap has reached 1500 ms.  The gap
    is taken modulo 2^32, so the wrap of [millis()] and the storage of
    the stamp in a signed [long] do not disturb the timer. *)
Theorem sends_are_spaced :
  (forall (e e' : ActuatorBox.env) (s : ActuatorBox.state),
     ActuatorBox.loop_fail_once s = 0 ->
     ActuatorBox.set_up_success s <> 0 ->
     snd (ActuatorBox.loop e s) <> None ->
     let s1 := fst (ActuatorBox.loop e s) in
     let gap := (ActuatorBox.millis_test e' - ActuatorBox.millis_stamp e)
                mod 2 ^ 32 in
     (snd (ActuatorBox.loop e' s1) <> None <-> ActuatorBox.interval s1 < gap)
     /\ (gap <= 500 -> snd (ActuatorBox.loop e' s1) = None)
     /\ (1500 <= gap -> snd (ActuatorBox.loop e' s1) <> None))
  /\ (forall (e e' : CommandBox.env) (s : CommandBox.state),
        CommandBox.loop_fail_once s = 0 ->
        CommandBox.set_up_success s <> 0 ->
        snd (CommandBox.loop e s) <> None ->
        let s1 := fst (CommandBox.loop e s) in
        let gap := (CommandBox.millis_test e' - CommandBox.millis_stamp e)
                   mod 2 ^ 32 in
        (snd (CommandBox.loop e' s1) <> None <-> CommandBox.interval s1 < gap)
        /\ (gap <= 500 -> snd (CommandBox.loop e' s1) = None)
        /\ (1500 <= gap -> snd (CommandBox.loop e' s1) <> None)).
Proof.
  split; intros e e' s R U F s1 gap.
  - destruct (actuator_loop_flags e s R U) as (R1 & U1).
    assert (U1' : ActuatorBox.set_up_success s1 <> 0)
      by (subst s1; rewrite U1; exact U).
    destruct (actuator_firing_effect e s R U F) as (L & I).
    pose proof (random_1000_bound (ActuatorBox.random_raw e)) as B.
    assert (D : snd (ActuatorBox.loop e' s1) <> None
                <-> ActuatorBox.interval s1 < gap).
    { rewrite (actuator_fires_iff_due e' s1 R1 U1').
      unfold ActuatorBox.due. subst s1. rewrite L, elapsed_mod.
      rewrite (to_ulong_small (ActuatorBox.interval _)) by (rewrite I; lia).
      fold gap. rewrite Z.gtb_ltb, Z.ltb_lt. reflexivity. }
    split; [exact D | split].
    + intros G. destruct (snd (ActuatorBox.loop e' s1)) eqn:S;
        [| reflexivity].
      assert (ActuatorBox.interval s1 < gap) by (apply D; discriminate).
      subst s1. rewrite I in *. lia.
    + intros G. apply D. subst s1. rewrite I. lia.
  - destruct (command_loop_flags e s R U) as (R1 & U1).
    assert (U1' : CommandBox.set_up_success s1 <> 0)
      by (subst s1; rewrite U1; exact U).
    destruct (command_firing_effect e s R U F) as (L & I).
    pose proof (random_1000_bound (CommandBox.random_raw e)) as B.
    assert (D : snd (CommandBox.loop e' s1) <> None
                <-> CommandBox.interval s1 < gap).
    { rewrite (command_fires_iff_due e' s1 R1 U1').
      unfold CommandBox.due. subst s1. rewrite L, elapsed_mod.
      rewrite (to_ulong_small (CommandBox.interval _)) by (rewrite I; lia).
      fold gap. rewrite Z.gtb_ltb, Z.ltb_lt. reflexivity. }
    split; [exact D | split].
    + intros G. destruct (snd (CommandBox.loop e' s1)) eqn:S;
        [| reflexivity].
      assert (CommandBox.interval s1 < gap) by (apply D; discriminate).
      subst s1. rewrite I in *. lia.
    + intros G. apply D. subst s1. rewrite I. lia.
Qed.

Lemma sends_are_spaced_witness :
  let e := ActuatorBox.mk_env 4294967000 (fun _ => 0) 4294967290 7 in
  let e' := ActuatorBox.mk_env 1800 (fun _ => 0) 1850 7 in
  let s := ActuatorBox.setup true ActuatorBox.initial in
  snd (ActuatorBox.loop e s) <> None
  /\ snd (ActuatorBox.loop e' (fst (ActuatorBox.loop e s))) <> None.
Proof.
  intros e e' s.
  assert (R : ActuatorBox.loop_fail_once s = 0) by reflexivity.
  assert (U : ActuatorBox.set_up_success s <> 0) by (simpl; lia).
  assert (F : snd (ActuatorBox.loop e s) <> None)
    by (vm_compute; discriminate).
  split; [exact F |].
  apply (proj2 (proj2 (proj1 sends_are_spaced e e' s R U F))).
  vm_compute. discriminate.
Defined.

(** ** What a received packet leaves behind *)

Lemma command_onReceive_accepts (pkt : LoRa.packet) (c : CommandBox.state) :
  LoRa.has_header Byte.xcc Byte.xbb pkt ->
  CommandBox.onReceive pkt c
  = CommandBox.set_pres_str
      (fst (fst (CommandBox.decodeSensors (skipn 2 pkt))))
      (snd (fst (CommandBox.decodeSensors (skipn 2 pkt))))
      (snd (CommandBox.decodeSensors (skipn 2 pkt))) c.
Proof.
  intros H. unfold CommandBox.onReceive.
  change CommandBox.local_address with (LoRa.byte_val Byte.xcc).
  change CommandBox.destination_address with (LoRa.byte_val Byte.xbb).
  rewrite (address_filter_accepts _ _ _ H).
  destruct (CommandBox.decodeSensors (skipn 2 pkt)) as [[f d] k].
  reflexivity.
Qed.

Lemma actuator_onReceive_accepts (pkt : LoRa.packet)
    (s : ActuatorBox.state) :
  LoRa.has_header Byte.xbb Byte.xcc pkt ->
  ActuatorBox.onReceive pkt s
  = ActuatorBox.set_opcode (CInt.to_byte (fst (LoRa.read (skipn 2 pkt)))) s.
Proof.
  intros H. unfold ActuatorBox.onReceive.
  change ActuatorBox.local_address with (LoRa.byte_val Byte.xbb).
  change ActuatorBox.destination_address with (LoRa.byte_val Byte.xcc).
  now rewrite (address_filter_accepts _ _ _ H).
Qed.

Lemma has_header_dec (local peer : Byte.byte) (pkt : LoRa.packet) :
  LoRa.has_header local peer pkt \/ ~ LoRa.has_header local peer pkt.
Proof.
  destruct pkt as [| b0 [| b1 rest]].
  - right. intros (L & _). cbn in L. lia.
  - right. intros (L & _). cbn in L. lia.
  - destruct (Byte.byte_eq_dec b0 local) as [-> | N0].
    + destruct (Byte.byte_eq_dec b1 peer) as [-> | N1].
      * left. unfold LoRa.has_header. cbn. repeat split. lia.
      * right. intros (_ & _ & H). cbn in H. congruence.
    + right. intros (_ & H & _). cbn in H. congruence.
Qed.

(** X12. The last accepted packet wins, and nothing older shows
    through.  On the command box an accepted packet sets all three
    sensor strings from its own payload alone, so a field that the new
    payload lacks becomes empty instead of keeping the old reading; on
    the actuator box it sets the received opcode.  Either handler,
    given the same packet twice, does what it does given it once. *)
Theorem last_accepted_packet_wins :
  (forall (p1 p2 : LoRa.packet) (c : CommandBox.state),
     LoRa.has_header Byte.xcc Byte.xbb p2 ->
     CommandBox.onReceive p2 (CommandBox.onReceive p1 c)
     = CommandBox.onReceive p2 c
     /\ (CommandBox.fill_pres_str (CommandBox.onReceive p2 c),
         CommandBox.dump_pres_str (CommandBox.onReceive p2 c),
         CommandBox.check_pres_str (CommandBox.onReceive p2 c))
        = CommandBox.decodeSensors (skipn 2 p2))
  /\ (forall (p1 p2 : LoRa.packet) (s : ActuatorBox.state),
        LoRa.has_header Byte.xbb Byte.xcc p2 ->
        ActuatorBox.onReceive p2 (ActuatorBox.onReceive p1 s)
        = ActuatorBox.onReceive p2 s)
  /\ (forall (p : LoRa.packet) (c : CommandBox.state),
        CommandBox.onReceive p (CommandBox.onReceive p c)
        = CommandBox.onReceive p c)
  /\ (forall (p : LoRa.packet) (s : ActuatorBox.state),
        ActuatorBox.onReceive p (ActuatorBox.onReceive p s)
        = ActuatorBox.onReceive p s).
Proof.
  assert (C : forall (p1 p2 : LoRa.packet) (c : CommandBox.state),
     LoRa.has_header Byte.xcc Byte.xbb p2 ->
     CommandBox.onReceive p2 (CommandBox.onReceive p1 c)
     = CommandBox.onReceive p2 c).
  { intros p1 p2 c H. rewrite !(command_onReceive_accepts p2 _ H).
    destruct (has_header_dec Byte.xcc Byte.xbb p1) as [H1 | H1].
    - rewrite (command_onReceive_accepts p1 _ H1). reflexivity.
    - now rewrite (command_onReceive_rejects p1 _ H1). }
  assert (A : forall (p1 p2 : LoRa.packet) (s : ActuatorBox.state),
     LoRa.has_header Byte.xbb Byte.xcc p2 ->
     ActuatorBox.onReceive p2 (ActuatorBox.onReceive p1 s)
     = ActuatorBox.onReceive p2 s).
  { intros p1 p2 s H. rewrite !(actuator_onReceive_accepts p2 _ H).
    destruct (has_header_dec Byte.xbb Byte.xcc p1) as [H1 | H1].
    - rewrite (actuator_onReceive_accepts p1 _ H1). reflexivity.
    - now rewrite (actuator_onReceive_rejects p1 _ H1). }
  split; [| split; [exact A | split]].
  - intros p1 p2 c H. split; [exact (C p1 p2 c H) |].
    rewrite (command_onReceive_accepts p2 _ H).
    destruct (CommandBox.decodeSensors (skipn 2 p2)) as [[f d] k].
    reflexivity.
  - intros p c. destruct (has_header_dec Byte.xcc Byte.xbb p) as [H | H].
    + exact (C p p c H).
    + now rewrite !(command_onReceive_rejects p _ H).
  - intros p s. destruct (has_header_dec Byte.xbb Byte.xcc p) as [H | H].
    + exact (A p p s H).
    + now rewrite !(actuator_onReceive_rejects p _ H).
Qed.

Lemma last_accepted_packet_wins_witness :
  let p1 := ActuatorBox.sendMessage 12 (345 # 10) 6 in
  let p2 := UltrasonicBox.sendMessage "7.25" in
  LoRa.has_header Byte.xcc Byte.xbb p2
  /\ CommandBox.dump_pres_str
       (CommandBox.onReceive p2 (CommandBox.onReceive p1 CommandBox.initial))
     = ""%string.
Proof.
  intros p1 p2.
  assert (H : LoRa.has_header Byte.xcc Byte.xbb p2).
  { unfold LoRa.has_header. simpl. repeat split. lia. }
  split; [exact H |].
  rewrite (proj1 (proj1 last_accepted_packet_wins p1 p2
                    CommandBox.initial H)).
  reflexivity.
Defined.

(** ** The fields give the payload back *)

Lemma cut_spec (l : LoRa.packet) :
  forall a r,
    Design.cut l = (a, r) ->
    ~ In Design.bar a
    /\ match r with
       | None => l = a
       | Some x => l = (a ++ Design.bar :: x)%list
       end.
Proof.
  induction l as [| b l IH]; intros a r H; cbn in H.
  - injection H as <- <-. split; [intros [] | reflexivity].
  - destruct (Byte.eqb b Design.bar) eqn:E.
    + injection H as <- <-. apply Byte.byte_dec_bl in E. subst b.
      split; [intros [] | reflexivity].
    + destruct (Design.cut l) as [a' r'] eqn:C.
      injection H as <- <-. destruct (IH a' r' eq_refl) as (N & S).
      apply Byte.eqb_false in E. split.
      * intros [Q | Q]; [congruence | contradiction].
      * destruct r'; cbn; now rewrite S.
Qed.

(** X13. The scan of the sensor payload loses nothing but the two
    separators it consumes.  For every payload the first two fields
    hold no separator, and the payload is the first field alone, or
    the first two fields joined by one separator, or all three joined
    by two (with the fields that were not reached empty). *)
Theorem fields_rebuild_the_payload :
  forall (payload : LoRa.packet) (f d k : string),
    CommandBox.decodeSensors payload = (f, d, k) ->
    ~ In Design.bar (list_byte_of_string f)
    /\ ~ In Design.bar (list_byte_of_string d)
    /\ ((payload = list_byte_of_string f /\ d = "" /\ k = "")
        \/ (payload = (list_byte_of_string f
                       ++ Design.bar :: list_byte_of_string d)%list
            /\ k = "")
        \/ payload = (list_byte_of_string f
                      ++ Design.bar :: list_byte_of_string d
                      ++ Design.bar :: list_byte_of_string k)%list).
Proof.
  intros payload f d k H.
  rewrite decodeSensors_fields in H. unfold Design.fields in H.
  destruct (Design.cut payload) as [a r1] eqn:C1.
  destruct (cut_spec payload a r1 C1) as (Na & S1).
  destruct r1 as [r |].
  - destruct (Design.cut r) as [b r2] eqn:C2.
    destruct (cut_spec r b r2 C2) as (Nb & S2).
    destruct r2 as [c |]; injection H as <- <- <-;
      rewrite ?list_byte_of_string_of_list_byte;
      (split; [exact Na | split; [exact Nb |]]).
    + right. right. now rewrite S1, S2.
    + right. left. now rewrite S1, S2.
  - injection H as <- <- <-. rewrite list_byte_of_string_of_list_byte.
    split; [exact Na | split; [intros [] |]].
    left. auto.
Qed.

Lemma fields_rebuild_the_payload_witness :
  list_byte_of_string "1|2|3|4"
  = (list_byte_of_string "1" ++ Design.bar :: list_byte_of_string "2"
     ++ Design.bar :: list_byte_of_string "3|4")%list
  /\ ~ In Design.bar (list_byte_of_string "1").
Proof.
  assert (H : CommandBox.decodeSensors (list_byte_of_string "1|2|3|4")
              = ("1", "2", "3|4")) by reflexivity.
  destruct (fields_rebuild_the_payload _ _ _ _ H) as (N & _ & _).
  split; [reflexivity | exact N].
Defined.

(** ** The single reading of the ultrasonic box *)

(** X14. What the ultrasonic actuator box sends for a text, the command
    box accepts; a text without separator arrives whole in
    [fill_pres_str] and the other two strings are empty, and in general
    the three strings are the text cut at its first two separators. *)
Theorem ultrasonic_reading_lands_in_the_first_field :
  forall (data : string) (c : CommandBox.state),
    let c' := CommandBox.onReceive (UltrasonicBox.sendMessage data) c in
    (CommandBox.fill_pres_str c', CommandBox.dump_pres_str c',
     CommandBox.check_pres_str c')
    = Design.fields (list_byte_of_string data)
    /\ (~ In Design.bar (list_byte_of_string data) ->
        CommandBox.fill_pres_str c' = data
        /\ CommandBox.dump_pres_str c' = ""
        /\ CommandBox.check_pres_str c' = "").
Proof.
  intros data c c'.
  assert (E : c' = CommandBox.set_pres_str
                     (fst (fst (CommandBox.decodeSensors
                                  (list_byte_of_string data))))
                     (snd (fst (CommandBox.decodeSensors
                                  (list_byte_of_string data))))
                     (snd (CommandBox.decodeSensors
                             (list_byte_of_string data))) c).
  { subst c'. rewrite ultrasonic_sendMessage_bytes.
    rewrite command_onReceive_accepts; [reflexivity |].
    unfold LoRa.has_header. cbn. repeat split. lia. }
  rewrite E. cbn [CommandBox.fill_pres_str CommandBox.dump_pres_str
                  CommandBox.check_pres_str CommandBox.set_pres_str].
  split.
  - rewrite <- decodeSensors_fields.
    destruct (CommandBox.decodeSensors _) as [[f d] k]. reflexivity.
  - intros N. rewrite (fields_none _ N).
    cbn [fst snd]. now rewrite string_of_list_byte_of_string.
Qed.

Lemma ultrasonic_reading_lands_in_the_first_field_witness :
  ~ In Design.bar (list_byte_of_string "7.25")
  /\ CommandBox.fill_pres_str
       (CommandBox.onReceive (UltrasonicBox.sendMessage "7.25")
          CommandBox.initial) = "7.25".
Proof.
  assert (N : ~ In Design.bar (list_byte_of_string "7.25")).
  { simpl. intros [Q | [Q | [Q | [Q | []]]]]; discriminate Q. }
  split; [exact N |].
  exact (proj1 (proj2 (ultrasonic_reading_lands_in_the_first_field
                         "7.25" CommandBox.initial) N)).
Defined.

(** ** Sensor readings, from the analog pins to the command box *)

Lemma actuator_loop_packet (e : ActuatorBox.env) (s : ActuatorBox.state)
    (pkt : LoRa.packet) :
  snd (ActuatorBox.loop e s) = Some pkt ->
  pkt = ActuatorBox.sendMessage
          (inject_Z (ActuatorBox.analogRead e ActuatorBox.FILL_PRES))
          (inject_Z (ActuatorBox.analogRead e ActuatorBox.DUMP_PRES))
          (inject_Z (ActuatorBox.analogRead e ActuatorBox.CHECK_PRES)).
Proof.
  unfold ActuatorBox.loop.
  destruct (negb (ActuatorBox.loop_fail_once s =? 0)); [discriminate |].
  destruct (ActuatorBox.set_up_success s =? 0); [discriminate |].
  destruct (ActuatorBox.due (ActuatorBox.millis_test e) s); [| discriminate].
  cbn. congruence.
Qed.

Lemma command_receives_sensors (x y z : Q) (c : CommandBox.state) :
  CommandBox.onReceive (ActuatorBox.sendMessage x y z) c
  = CommandBox.set_pres_str (WString.String_of_float x)
      (WString.String_of_float y) (WString.String_of_float z) c.
Proof.
  rewrite sendMessage_bytes. unfold CommandBox.onReceive.
  change CommandBox.local_address with (LoRa.byte_val Byte.xcc).
  change CommandBox.destination_address with (LoRa.byte_val Byte.xbb).
  rewrite address_filter_two.
  rewrite !Byte.byte_dec_lb by reflexivity. cbn [andb].
  rewrite fields_two by apply no_bar_String_of_float.
  now rewrite !string_of_list_byte_of_string.
Qed.

Lemma hundredths_of_integer (n : Z) :
  0 <= n -> WString.hundredths (inject_Z n) = 100 * n.
Proof.
  intros H. unfold WString.hundredths. cbv zeta.
  assert (F : Qfloor (Qabs (inject_Z n) * 100) = 100 * n).
  { unfold Qfloor, Qmult, Qabs, inject_Z. cbn [Qnum Qden Pos.mul].
    rewrite Z.abs_eq by exact H. rewrite Z.div_1_r. lia. }
  rewrite F.
  assert (L : (Qabs (inject_Z n) * 100 - inject_Z (100 * n) ?= 1 # 2)%Q = Lt).
  { apply (proj1 (Qlt_alt _ _)).
    unfold Qlt, Qminus, Qplus, Qopp, Qmult, Qabs, inject_Z.
    cbn [Qnum Qden Pos.mul]. rewrite Z.abs_eq by exact H. lia. }
  now rewrite L.
Qed.

Lemma String_of_float_integer (n : Z) :
  0 <= n ->
  WString.String_of_float (inject_Z n) = (WString.digits n ++ ".00")%string.
Proof.
  intros H. unfold WString.String_of_float.
  rewrite (hundredths_of_integer n H). cbv zeta.
  assert (Q0 : Qle_bool 0 (inject_Z n) = true).
  { apply Qle_bool_iff. unfold Qle, inject_Z. cbn. lia. }
  rewrite Q0.
  replace (100 * n / 100) with n by (rewrite Z.mul_comm, Z.div_mul; lia).
  replace (100 * n mod 100) with 0
    by (rewrite Z.mul_comm, Z.mod_mul; lia).
  reflexivity.
Qed.

(** X15. From the analog pins to the command box.  Whenever an
    iteration of the actuator's [loop] sends, and the three analog
    readings of that iteration lie between 0 and 2^24 (the range in
    which an [int] stored in a [float] keeps its value; [analogRead]
    gives 14 bits at most), the command box accepts that packet and
    each of its three sensor strings becomes the decimal digits of the
    reading followed by ".00". *)
Theorem readings_reach_the_command_box :
  forall (e : ActuatorBox.env) (s : ActuatorBox.state) (pkt : LoRa.packet)
         (c : CommandBox.state),
    snd (ActuatorBox.loop e s) = Some pkt ->
    let c' := CommandBox.onReceive pkt c in
    let fill := ActuatorBox.analogRead e ActuatorBox.FILL_PRES in
    let dump := ActuatorBox.analogRead e ActuatorBox.DUMP_PRES in
    let check := ActuatorBox.analogRead e ActuatorBox.CHECK_PRES in
    0 <= fill <= 2 ^ 24 -> 0 <= dump <= 2 ^ 24 -> 0 <= check <= 2 ^ 24 ->
    CommandBox.fill_pres_str c' = (WString.digits fill ++ ".00")%string
    /\ CommandBox.dump_pres_str c' = (WString.digits dump ++ ".00")%string
    /\ CommandBox.check_pres_str c' = (WString.digits check ++ ".00")%string.
Proof.
  intros e s pkt c S c' fill dump check F D C.
  apply actuator_loop_packet in S. subst pkt c'.
  rewrite command_receives_sensors.
  cbn [CommandBox.fill_pres_str CommandBox.dump_pres_str
       CommandBox.check_pres_str CommandBox.set_pres_str].
  change (ActuatorBox.analogRead e ActuatorBox.FILL_PRES) with fill.
  change (ActuatorBox.analogRead e ActuatorBox.DUMP_PRES) with dump.
  change (ActuatorBox.analogRead e ActuatorBox.CHECK_PRES) with check.
  rewrite !String_of_float_integer by lia. auto.
Qed.

Lemma readings_reach_the_command_box_witness :
  let e := ActuatorBox.mk_env 2000 (fun pin => pin * 10) 2050 7 in
  let s := ActuatorBox.setup true ActuatorBox.initial in
  exists pkt,
    snd (ActuatorBox.loop e s) = Some pkt
    /\ CommandBox.fill_pres_str (CommandBox.onReceive pkt CommandBox.initial)
       = "150.00"%string.
Proof.
  intros e s.
  destruct (snd (ActuatorBox.loop e s)) as [pkt |] eqn:S;
    [| vm_compute in S; discriminate S].
  exists pkt. split; [reflexivity |].
  assert (P : 0 <= ActuatorBox.analogRead e ActuatorBox.FILL_PRES <= 2 ^ 24)
    by (simpl; lia).
  assert (Q : 0 <= ActuatorBox.analogRead e ActuatorBox.DUMP_PRES <= 2 ^ 24)
    by (simpl; lia).
  assert (R : 0 <= ActuatorBox.analogRead e ActuatorBox.CHECK_PRES <= 2 ^ 24)
    by (simpl; lia).
  exact (proj1 (readings_reach_the_command_box e s pkt CommandBox.initial
                  S P Q R)).
Defined.

(** ** The first prototype *)

Lemma prelim_LED_actuation_pins (m : Z) (s : PrelimActuator.state) :
  let s' := PrelimActuator.LED_actuation m s in
  PrelimActuator.pins s' PrelimActuator.FILL_LED
    = Z.land (Z.shiftr (PrelimActuator.received_message s') 2) 1
  /\ PrelimActuator.pins s' PrelimActuator.DUMP_LED
    = Z.land (Z.shiftr (PrelimActuator.received_message s') 1) 1
  /\ PrelimActuator.pins s' PrelimActuator.CHECK_LED
    = Z.land (PrelimActuator.received_message s') 1.
Proof.
  unfold PrelimActuator.LED_actuation, Codec.decode.
  destruct (PrelimActuator.forbidden m);
    cbn -[Z.land Z.shiftr CInt.to_byte]; rewrite !to_byte_land_1; auto.
Qed.

Lemma prelim_loop_running (pkt : LoRa.packet) (s : PrelimActuator.state) :
  PrelimActuator.loop_fail_once s = 0 ->
  PrelimActuator.set_up_success s <> 0 ->
  PrelimActuator.loop pkt s
  = match pkt with
    | [] => s
    | b :: _ =>
        PrelimActuator.LED_actuation (LoRa.byte_val b)
          (PrelimActuator.mk (PrelimActuator.set_up_success s)
             (PrelimActuator.loop_fail_once s) (LoRa.byte_val b)
             (PrelimActuator.received_message s)
             (WString.eight_bits (LoRa.byte_val b)) (PrelimActuator.pins s))
    end.
Proof.
  intros R U. unfold PrelimActuator.loop. rewrite R. cbn [Z.eqb negb].
  destruct (Z.eqb_spec (PrelimActuator.set_up_success s) 0) as [E |];
    [contradiction |].
  destruct pkt as [| b rest]; [reflexivity |].
  cbn [LoRa.available List.length LoRa.read fst].
  destruct (Z.eqb_spec (Z.of_nat (S (List.length rest))) 0) as [Q |]; [lia |].
  rewrite to_byte_byte_val. reflexivity.
Qed.

Lemma prelim_command_packet (digitalRead : Z -> Z) (c : PrelimCommand.state)
    (pkt : LoRa.packet) :
  snd (PrelimCommand.loop digitalRead c) = Some pkt ->
  pkt = [LoRa.wire_byte (PrelimCommand.command_message digitalRead)].
Proof.
  unfold PrelimCommand.loop.
  destruct (negb (PrelimCommand.loop_fail_once c =? 0)); [discriminate |].
  destruct (PrelimCommand.set_up_success c =? 0); [discriminate |].
  cbn. congruence.
Qed.

(** X16. The prototype pair, from the switches to the LEDs.  The
    prototype command box sends a single byte, without addresses; the
    prototype actuator box, polling, takes it as the message.  For
    switch readings that are 0 or 1: a safe combination is latched and
    shown on the three LEDs, an unsafe one is recorded as
    [encoded_message] but the latch and the LEDs keep the previous
    code. *)
Theorem prototype_switches_reach_the_leds :
  forall (digitalRead : Z -> Z) (c : PrelimCommand.state) (pkt : LoRa.packet)
         (a : PrelimActuator.state),
    0 <= digitalRead PrelimCommand.FILL_SW <= 1 ->
    0 <= digitalRead PrelimCommand.DUMP_SW <= 1 ->
    0 <= digitalRead PrelimCommand.CHECK_SW <= 1 ->
    snd (PrelimCommand.loop digitalRead c) = Some pkt ->
    PrelimActuator.loop_fail_once a = 0 ->
    PrelimActuator.set_up_success a <> 0 ->
    let fill := digitalRead PrelimCommand.FILL_SW in
    let dump := digitalRead PrelimCommand.DUMP_SW in
    let check := digitalRead PrelimCommand.CHECK_SW in
    let a' := PrelimActuator.loop pkt a in
    PrelimActuator.encoded_message a' = 4 * fill + 2 * dump + check
    /\ (~ ((fill = 1 /\ dump = 1) \/ (fill = 0 /\ check = 1)) ->
        PrelimActuator.received_message a' = 4 * fill + 2 * dump + check
        /\ PrelimActuator.pins a' PrelimActuator.FILL_LED = fill
        /\ PrelimActuator.pins a' PrelimActuator.DUMP_LED = dump
        /\ PrelimActuator.pins a' PrelimActuator.CHECK_LED = check)
    /\ ((fill = 1 /\ dump = 1) \/ (fill = 0 /\ check = 1) ->
        PrelimActuator.received_message a'
        = PrelimActuator.received_message a
        /\ PrelimActuator.pins a' PrelimActuator.FILL_LED
           = Z.land (Z.shiftr (PrelimActuator.received_message a) 2) 1
        /\ PrelimActuator.pins a' PrelimActuator.DUMP_LED
           = Z.land (Z.shiftr (PrelimActuator.received_message a) 1) 1
        /\ PrelimActuator.pins a' PrelimActuator.CHECK_LED
           = Z.land (PrelimActuator.received_message a) 1).
Proof.
  intros rd c pkt a F D C S R U fill dump check a'.
  apply prelim_command_packet in S. subst pkt a'.
  unfold PrelimCommand.command_message.
  change (rd PrelimCommand.FILL_SW) with fill.
  change (rd PrelimCommand.DUMP_SW) with dump.
  change (rd PrelimCommand.CHECK_SW) with check.
  pose proof (encode_value fill dump check F D C) as Ev.
  pose proof (decode_encode fill dump check F D C) as De.
  pose proof (encode_unsafe_iff fill dump check F D C) as Un.
  rewrite (prelim_loop_running _ a R U).
  rewrite (byte_val_wire _ (encode_byte fill dump check)).
  set (a1 := PrelimActuator.mk _ _ _ _ _ _).
  pose proof (prelim_LED_actuation_pins (Codec.encode fill dump check) a1)
    as Q. cbv zeta in Q.
  pose proof (prelim_LED_actuation_latch (Codec.encode fill dump check) a1)
    as L.
  change (PrelimActuator.received_message a1)
    with (PrelimActuator.received_message a) in L.
  split; [exact Ev | split; intros H].
  - assert (E : Codec.forbidden (Codec.encode fill dump check) = false)
      by (apply forbidden_safe; rewrite Un; exact H).
    rewrite E in L. rewrite L in Q. rewrite L.
    pose proof (decode_bits (Codec.encode fill dump check)) as DB.
    rewrite De in DB. injection DB as D1 D2 D3.
    destruct Q as (Q1 & Q2 & Q3). repeat split; congruence.
  - assert (E : Codec.forbidden (Codec.encode fill dump check) = true)
      by (apply forbidden_unsafe; rewrite Un; exact H).
    rewrite E in L. rewrite L in Q. rewrite L. split; [reflexivity | exact Q].
Qed.

Lemma prototype_switches_reach_the_leds_witness :
  let rd := fun pin => if pin =? 7 then 0 else 1 in
  let c := PrelimCommand.setup true PrelimCommand.initial in
  let a := PrelimActuator.setup true PrelimActuator.initial in
  snd (PrelimCommand.loop rd c) = Some [Byte.x05]
  /\ PrelimActuator.received_message (PrelimActuator.loop [Byte.x05] a) = 5
  /\ PrelimActuator.pins (PrelimActuator.loop [Byte.x05] a)
       PrelimActuator.FILL_LED = 1.
Proof.
  intros rd c a.
  assert (S : snd (PrelimCommand.loop rd c) = Some [Byte.x05])
    by reflexivity.
  assert (F : 0 <= rd PrelimCommand.FILL_SW <= 1) by (unfold rd; simpl; lia).
  assert (D : 0 <= rd PrelimCommand.DUMP_SW <= 1) by (unfold rd; simpl; lia).
  assert (C : 0 <= rd PrelimCommand.CHECK_SW <= 1) by (unfold rd; simpl; lia).
  assert (R : PrelimActuator.loop_fail_once a = 0) by reflexivity.
  assert (U : PrelimActuator.set_up_success a <> 0) by (unfold rd; simpl; lia).
  assert (N : ~ ((rd PrelimCommand.FILL_SW = 1 /\ rd PrelimCommand.DUMP_SW = 1)
                 \/ (rd PrelimCommand.FILL_SW = 0
                     /\ rd PrelimCommand.CHECK_SW = 1)))
    by (unfold rd; simpl; lia).
  split; [exact S |].
  destruct (proj1 (proj2 (prototype_switches_reach_the_leds
                            rd c [Byte.x05] a F D C S R U)) N)
    as (L & P & _).
  split; [exact L | exact P].
Defined.

Lemma prelim_loop_keeps (pkt : LoRa.packet) (s : PrelimActuator.state) :
  (~ Design.unsafe (PrelimActuator.received_message s)
   /\ PrelimActuator.pins s PrelimActuator.FILL_LED
      = Z.land (Z.shiftr (PrelimActuator.received_message s) 2) 1
   /\ PrelimActuator.pins s PrelimActuator.DUMP_LED
      = Z.land (Z.shiftr (PrelimActuator.received_message s) 1) 1
   /\ PrelimActuator.pins s PrelimActuator.CHECK_LED
      = Z.land (PrelimActuator.received_message s) 1) ->
  let s' := PrelimActuator.loop pkt s in
  ~ Design.unsafe (PrelimActuator.received_message s')
  /\ PrelimActuator.pins s' PrelimActuator.FILL_LED
     = Z.land (Z.shiftr (PrelimActuator.received_message s') 2) 1
  /\ PrelimActuator.pins s' PrelimActuator.DUMP_LED
     = Z.land (Z.shiftr (PrelimActuator.received_message s') 1) 1
  /\ PrelimActuator.pins s' PrelimActuator.CHECK_LED
     = Z.land (PrelimActuator.received_message s') 1.
Proof.
  intros H. cbv zeta. unfold PrelimActuator.loop.
  destruct (negb (PrelimActuator.loop_fail_once s =? 0)); [exact H |].
  destruct (PrelimActuator.set_up_success s =? 0); [exact H |].
  destruct (LoRa.available pkt =? 0); [exact H |].
  split.
  - apply prelim_LED_actuation_keeps_safe. exact (proj1 H).
  - apply prelim_LED_actuation_pins.
Qed.

(** X17. The prototype actuator box, polling.  An iteration with no
    packet changes nothing once [setup] has succeeded; an iteration
    with a packet takes its first byte as the message, whatever the
    packet is (there is no address test in the prototype); and along
    every sequence of iterations the latched message is none of 1, 3,
    6, 7 and the three LEDs show its three low bits. *)
Theorem prototype_polling :
  (forall s : PrelimActuator.state,
     PrelimActuator.loop_fail_once s = 0 ->
     PrelimActuator.set_up_success s <> 0 ->
     PrelimActuator.loop [] s = s
     /\ forall (b : Byte.byte) (rest : LoRa.packet),
          PrelimActuator.encoded_message (PrelimActuator.loop (b :: rest) s)
          = LoRa.byte_val b)
  /\ (forall (ok : bool) (pkts : list LoRa.packet),
        let s := PrelimActuator.poll pkts
                   (PrelimActuator.setup ok PrelimActuator.initial) in
        ~ Design.unsafe (PrelimActuator.received_message s)
        /\ PrelimActuator.pins s PrelimActuator.FILL_LED
           = Z.land (Z.shiftr (PrelimActuator.received_message s) 2) 1
        /\ PrelimActuator.pins s PrelimActuator.DUMP_LED
           = Z.land (Z.shiftr (PrelimActuator.received_message s) 1) 1
        /\ PrelimActuator.pins s PrelimActuator.CHECK_LED
           = Z.land (PrelimActuator.received_message s) 1).
Proof.
  split.
  - intros s R U. split.
    + now rewrite prelim_loop_running.
    + intros b rest. rewrite prelim_loop_running by assumption.
      unfold PrelimActuator.LED_actuation.
      destruct (PrelimActuator.forbidden (LoRa.byte_val b)); reflexivity.
  - intros ok pkts. cbv zeta. unfold PrelimActuator.poll.
    assert (G : forall s,
      (~ Design.unsafe (PrelimActuator.received_message s)
       /\ PrelimActuator.pins s PrelimActuator.FILL_LED
          = Z.land (Z.shiftr (PrelimActuator.received_message s) 2) 1
       /\ PrelimActuator.pins s PrelimActuator.DUMP_LED
          = Z.land (Z.shiftr (PrelimActuator.received_message s) 1) 1
       /\ PrelimActuator.pins s PrelimActuator.CHECK_LED
          = Z.land (PrelimActuator.received_message s) 1) ->
      let s' := fold_left (fun s pkt => PrelimActuator.loop pkt s) pkts s in
      ~ Design.unsafe (PrelimActuator.received_message s')
      /\ PrelimActuator.pins s' PrelimActuator.FILL_LED
         = Z.land (Z.shiftr (PrelimActuator.received_message s') 2) 1
      /\ PrelimActuator.pins s' PrelimActuator.DUMP_LED
         = Z.land (Z.shiftr (PrelimActuator.received_message s') 1) 1
      /\ PrelimActuator.pins s' PrelimActuator.CHECK_LED
         = Z.land (PrelimActuator.received_message s') 1).
    { induction pkts as [| p pkts IH]; intros s H; [exact H |].
      cbn [fold_left]. apply IH. now apply prelim_loop_keeps. }
    apply G. destruct ok; (split; [exact zero_is_safe | repeat split]).
Qed.

Lemma prototype_polling_witness :
  PrelimActuator.loop []
    (PrelimActuator.setup true PrelimActuator.initial)
  = PrelimActuator.setup true PrelimActuator.initial.
Proof.
  assert (R : PrelimActuator.loop_fail_once
                (PrelimActuator.setup true PrelimActuator.initial) = 0)
    by reflexivity.
  assert (U : PrelimActuator.set_up_success
                (PrelimActuator.setup true PrelimActuator.initial) <> 0)
    by (simpl; lia).
  exact (proj1 (proj1 prototype_polling _ R U)).
Defined.

(** X18. The label that the prototype command box prints for what it
    sends: for switch readings that are 0 or 1 it is the label of the
    table for the code 4*fill + 2*dump + check, never "unknown", and it
    is "don't care" or "forbidden" exactly for the combinations that
    the actuator side refuses. *)
Theorem prototype_label_of_the_switches :
  forall digitalRead : Z -> Z,
    0 <= digitalRead PrelimCommand.FILL_SW <= 1 ->
    0 <= digitalRead PrelimCommand.DUMP_SW <= 1 ->
    0 <= digitalRead PrelimCommand.CHECK_SW <= 1 ->
    let fill := digitalRead PrelimCommand.FILL_SW in
    let dump := digitalRead PrelimCommand.DUMP_SW in
    let check := digitalRead PrelimCommand.CHECK_SW in
    let label := PrelimCommand.state_determination
                   (PrelimCommand.command_message digitalRead) in
    label = Design.text (Design.table (4 * fill + 2 * dump + check))
    /\ label <> "unknown"%string
    /\ (label = "don't care"%string \/ label = "forbidden"%string
        <-> PrelimActuator.forbidden
              (PrelimCommand.command_message digitalRead) = true).
Proof.
  intros rd F D C fill dump check label. subst label fill dump check.
  unfold PrelimCommand.command_message.
  remember (rd PrelimCommand.FILL_SW) as fill eqn:Ef.
  remember (rd PrelimCommand.DUMP_SW) as dump eqn:Ed.
  remember (rd PrelimCommand.CHECK_SW) as check eqn:Ec.
  clear Ef Ed Ec.
  destruct (bit_cases _ F) as [-> | ->], (bit_cases _ D) as [-> | ->],
    (bit_cases _ C) as [-> | ->];
    (split; [reflexivity |]); (split; [discriminate |]);
    cbn; split; intros H; try reflexivity; try discriminate H;
    try (destruct H as [H | H]; discriminate H); auto.
Qed.

Lemma prototype_label_of_the_switches_witness :
  PrelimCommand.state_determination
    (PrelimCommand.command_message (fun pin => if pin =? 7 then 0 else 1))
  <> "unknown"%string.
Proof.
  assert (F : 0 <= (fun pin => if pin =? 7 then 0 else 1)
                     PrelimCommand.FILL_SW <= 1) by (simpl; lia).
  assert (D : 0 <= (fun pin => if pin =? 7 then 0 else 1)
                     PrelimCommand.DUMP_SW <= 1) by (simpl; lia).
  assert (C : 0 <= (fun pin => if pin =? 7 then 0 else 1)
                     PrelimCommand.CHECK_SW <= 1) by (simpl; lia).
  exact (proj1 (proj2 (prototype_label_of_the_switches _ F D C))).
Defined.

(** ** The ultrasonic actuator box *)

Lemma ultrasonic_latch (c : Z) (s : UltrasonicBox.state) :
  UltrasonicBox.received_code (UltrasonicBox.LED_actuation c s)
  = if Codec.forbidden c then UltrasonicBox.received_code s else c.
Proof.
  unfold UltrasonicBox.LED_actuation.
  destruct (Codec.forbidden c); reflexivity.
Qed.

Lemma ultrasonic_pins (c : Z) (s : UltrasonicBox.state) :
  let s' := UltrasonicBox.LED_actuation c s in
  UltrasonicBox.pins s' UltrasonicBox.FILL_LED
    = Z.land (Z.shiftr (UltrasonicBox.received_code s') 2) 1
  /\ UltrasonicBox.pins s' UltrasonicBox.DUMP_LED
    = Z.land (Z.shiftr (UltrasonicBox.received_code s') 1) 1
  /\ UltrasonicBox.pins s' UltrasonicBox.CHECK_LED
    = Z.land (UltrasonicBox.received_code s') 1
  /\ UltrasonicBox.code s' = UltrasonicBox.code s.
Proof.
  unfold UltrasonicBox.LED_actuation, Codec.decode.
  destruct (Codec.forbidden c);
    cbn -[Z.land Z.shiftr CInt.to_byte]; rewrite !to_byte_land_1; auto.
Qed.

(** X19. The latch of the ultrasonic actuator box.  A call of its
    [LED_actuation] keeps the latched code on 1, 3, 6 and 7 and stores
    every other code; it leaves the received [code] alone; and after any
    sequence of calls from the initial state the latched code is none
    of 1, 3, 6, 7 and the LEDs on pins 8, 5 and 4 show its bits 2, 1
    and 0. *)
Theorem ultrasonic_latch_is_safe :
  (forall (c : Z) (s : UltrasonicBox.state),
     (Design.unsafe c ->
      UltrasonicBox.received_code (UltrasonicBox.LED_actuation c s)
      = UltrasonicBox.received_code s)
     /\ (~ Design.unsafe c ->
         UltrasonicBox.received_code (UltrasonicBox.LED_actuation c s) = c)
     /\ UltrasonicBox.code (UltrasonicBox.LED_actuation c s)
        = UltrasonicBox.code s)
  /\ (forall codes : list Z,
        let s := UltrasonicBox.run codes UltrasonicBox.initial in
        ~ Design.unsafe (UltrasonicBox.received_code s)
        /\ UltrasonicBox.pins s 8
           = Z.land (Z.shiftr (UltrasonicBox.received_code s) 2) 1
        /\ UltrasonicBox.pins s 5
           = Z.land (Z.shiftr (UltrasonicBox.received_code s) 1) 1
        /\ UltrasonicBox.pins s 4
           = Z.land (UltrasonicBox.received_code s) 1).
Proof.
  split.
  - intros c s. rewrite ultrasonic_latch. split; [| split].
    + intros H. apply forbidden_unsafe in H. now rewrite H.
    + intros H. apply forbidden_safe in H. now rewrite H.
    + apply ultrasonic_pins.
  - intros codes. cbv zeta. unfold UltrasonicBox.run.
    assert (G : forall s,
      (~ Design.unsafe (UltrasonicBox.received_code s)
       /\ UltrasonicBox.pins s 8
          = Z.land (Z.shiftr (UltrasonicBox.received_code s) 2) 1
       /\ UltrasonicBox.pins s 5
          = Z.land (Z.shiftr (UltrasonicBox.received_code s) 1) 1
       /\ UltrasonicBox.pins s 4
          = Z.land (UltrasonicBox.received_code s) 1) ->
      let s' := fold_left (fun s c => UltrasonicBox.LED_actuation c s)
                  codes s in
      ~ Design.unsafe (UltrasonicBox.received_code s')
      /\ UltrasonicBox.pins s' 8
         = Z.land (Z.shiftr (UltrasonicBox.received_code s') 2) 1
      /\ UltrasonicBox.pins s' 5
         = Z.land (Z.shiftr (UltrasonicBox.received_code s') 1) 1
      /\ UltrasonicBox.pins s' 4
         = Z.land (UltrasonicBox.received_code s') 1).
    { induction codes as [| c codes IH]; intros s H; [exact H |].
      cbn [fold_left]. apply IH. split.
      - rewrite ultrasonic_latch.
        destruct (Codec.forbidden c) eqn:E;
          [exact (proj1 H) | now apply forbidden_safe].
      - destruct (ultrasonic_pins c s) as (A & B & C & _). auto. }
    apply G. split; [exact zero_is_safe | repeat split].
Qed.

Lemma ultrasonic_latch_is_safe_witness :
  Design.unsafe 7 /\ ~ Design.unsafe 4
  /\ UltrasonicBox.received_code
       (UltrasonicBox.LED_actuation 7
          (UltrasonicBox.LED_actuation 4 UltrasonicBox.initial)) = 4.
Proof.
  assert (U : Design.unsafe 7) by (unfold Design.unsafe; lia).
  assert (S : ~ Design.unsafe 4) by (unfold Design.unsafe; lia).
  split; [exact U | split; [exact S |]].
  rewrite (proj1 (proj1 ultrasonic_latch_is_safe 7 _) U).
  exact (proj1 (proj2 (proj1 ultrasonic_latch_is_safe 4
                         UltrasonicBox.initial)) S).
Defined.

(** ** The address filter of the command box *)

(** X20. The handler of the command box lets a packet through exactly
    when it has at least two bytes, the first 0xCC and the second 0xBB;
    it then reads the sensor fields from offset 2 and touches nothing
    but the three sensor strings.  Every other packet, also an empty
    one or a single byte, leaves the state as it was. *)
Theorem command_address_filter :
  forall (pkt : LoRa.packet) (c : CommandBox.state),
    (LoRa.address_filter CommandBox.local_address
       CommandBox.destination_address pkt <> None
     <-> LoRa.has_header Byte.xcc Byte.xbb pkt)
    /\ (LoRa.has_header Byte.xcc Byte.xbb pkt ->
        (CommandBox.fill_pres_str (CommandBox.onReceive pkt c),
         CommandBox.dump_pres_str (CommandBox.onReceive pkt c),
         CommandBox.check_pres_str (CommandBox.onReceive pkt c))
        = CommandBox.decodeSensors (skipn 2 pkt)
        /\ CommandBox.opcode (CommandBox.onReceive pkt c)
           = CommandBox.opcode c
        /\ CommandBox.last_send_time (CommandBox.onReceive pkt c)
           = CommandBox.last_send_time c
        /\ CommandBox.interval (CommandBox.onReceive pkt c)
           = CommandBox.interval c)
    /\ (~ LoRa.has_header Byte.xcc Byte.xbb pkt ->
        CommandBox.onReceive pkt c = c).
Proof.
  intros pkt c. split; [| split].
  - change CommandBox.local_address with (LoRa.byte_val Byte.xcc).
    change CommandBox.destination_address with (LoRa.byte_val Byte.xbb).
    destruct (has_header_dec Byte.xcc Byte.xbb pkt) as [H | H].
    + rewrite (address_filter_accepts _ _ _ H). split; [auto | discriminate].
    + rewrite (address_filter_rejects Byte.xcc Byte.xbb pkt);
        [| discriminate | exact H].
      split; [congruence | contradiction].
  - intros H. rewrite (command_onReceive_accepts pkt c H).
    destruct (CommandBox.decodeSensors (skipn 2 pkt)) as [[f d] k].
    repeat split.
  - apply command_onReceive_rejects.
Qed.

Lemma command_address_filter_witness :
  ~ LoRa.has_header Byte.xcc Byte.xbb [Byte.xcc]
  /\ LoRa.has_header Byte.xcc Byte.xbb [Byte.xcc; Byte.xbb; Byte.x39]
  /\ CommandBox.onReceive [Byte.xcc] CommandBox.initial = CommandBox.initial
  /\ CommandBox.fill_pres_str
       (CommandBox.onReceive [Byte.xcc; Byte.xbb; Byte.x39]
          CommandBox.initial) = "9"%string.
Proof.
  assert (N : ~ LoRa.has_header Byte.xcc Byte.xbb [Byte.xcc]).
  { unfold LoRa.has_header. simpl. lia. }
  assert (H : LoRa.has_header Byte.xcc Byte.xbb
                [Byte.xcc; Byte.xbb; Byte.x39]).
  { unfold LoRa.has_header. simpl. repeat split. lia. }
  split; [exact N | split; [exact H | split]].
  - exact (proj2 (proj2 (command_address_filter [Byte.xcc]
                           CommandBox.initial)) N).
  - pose proof (proj1 (proj1 (proj2 (command_address_filter
                  [Byte.xcc; Byte.xbb; Byte.x39] CommandBox.initial)) H))
      as E.
    apply (f_equal (fun t => fst (fst t))) in E. exact E.
Defined.
